(** * amplify-category-api: the searchable instance types, the
      [AmplifyGraphqlApi] construct and the resolver pipeline

    A shallow embedding of

    - [packages/amplify-graphql-searchable-transformer/src/constants.ts]
      (module [Searchable]),
    - the [AmplifyGraphqlApi] construct and its guard
      [validateNoOtherAmplifyGraphqlApiInStack] (module [GraphqlApi]),
    - the [predictions] directive definition (module [Directives]),
    - the resolver accumulator and the pipeline orchestrator of the
      transformer core (modules [TransformerCore] and [Pipeline]).

    Part I holds the definitions, Part II the properties. *)

From Stdlib Require Import String Ascii List Arith ZArith Bool Lia.
From Stdlib Require Import DecimalString Permutation Sorted.
Import ListNotations.
#[local] Set Warnings "-register-all".
Open Scope string_scope.
Open Scope list_scope.

(** String concatenation, JavaScript's [+] on strings and its template
    literals; [++] is kept for lists. *)
Infix "+:+" := String.append (at level 60, right associativity).

(* ================================================================= *)
(** * Part I: definitions *)

(* ================================================================= *)
(** ** Strings as JavaScript uses them *)

Module JsString.

(** [s.slice(n)]: what is left of [s] after its first [n] characters. *)
Fixpoint drop (n : nat) (s : string) : string :=
  match n, s with
  | O, _ => s
  | S _, EmptyString => EmptyString
  | S n', String _ s' => drop n' s'
  end.

(** [s.replace(pattern, replacement)] with a string pattern: only the
    first occurrence of [pattern], scanning from the left, is replaced.
    (The replacement strings used in the sources hold no [$], so the
    special replacement patterns of JavaScript play no part.) *)
Fixpoint replace (pattern replacement s : string) : string :=
  if prefix pattern s
  then replacement +:+ drop (String.length pattern) s
  else match s with
       | EmptyString => EmptyString
       | String c s' => String c (replace pattern replacement s')
       end.

(** [s.endsWith(suffix)], returning what comes before the suffix. *)
Fixpoint stripSuffix (suffix s : string) : option string :=
  if String.eqb s suffix then Some EmptyString
  else match s with
       | EmptyString => None
       | String c s' =>
           match stripSuffix suffix s' with
           | Some p => Some (String c p)
           | None => None
           end
       end.

End JsString.

(* ================================================================= *)
(** ** [amplify-graphql-searchable-transformer/src/constants.ts] *)

Module Searchable.
Import JsString.

Definition elasticsearch_instance_types : list string :=
  [ "t2.small.elasticsearch";
    "t2.medium.elasticsearch";
    "c4.large.elasticsearch";
    "c4.xlarge.elasticsearch";
    "c4.2xlarge.elasticsearch";
    "c4.4xlarge.elasticsearch";
    "c4.8xlarge.elasticsearch";
    "m3.medium.elasticsearch";
    "m3.large.elasticsearch";
    "m3.xlarge.elasticsearch";
    "m3.2xlarge.elasticsearch";
    "m4.large.elasticsearch";
    "m4.xlarge.elasticsearch";
    "m4.2xlarge.elasticsearch";
    "m4.4xlarge.elasticsearch";
    "m4.10xlarge.elasticsearch";
    "r3.large.elasticsearch";
    "r3.xlarge.elasticsearch";
    "r3.2xlarge.elasticsearch";
    "r3.4xlarge.elasticsearch";
    "r3.8xlarge.elasticsearch";
    "r4.large.elasticsearch";
    "r4.xlarge.elasticsearch";
    "r4.2xlarge.elasticsearch";
    "r4.4xlarge.elasticsearch";
    "r4.8xlarge.elasticsearch";
    "r4.16xlarge.elasticsearch";
    "i2.xlarge.elasticsearch";
    "i2.2xlarge.elasticsearch";
    "i3.large.elasticsearch";
    "i3.xlarge.elasticsearch";
    "i3.2xlarge.elasticsearch";
    "i3.4xlarge.elasticsearch";
    "i3.8xlarge.elasticsearch";
    "i3.16xlarge.elasticsearch";
    "r6gd.12xlarge.elasticsearch";
    "ultrawarm1.xlarge.elasticsearch";
    "m5.4xlarge.elasticsearch";
    "t3.xlarge.elasticsearch";
    "m6g.xlarge.elasticsearch";
    "m6g.12xlarge.elasticsearch";
    "t2.micro.elasticsearch";
    "r6gd.16xlarge.elasticsearch";
    "d2.2xlarge.elasticsearch";
    "t3.micro.elasticsearch";
    "m5.large.elasticsearch";
    "d2.4xlarge.elasticsearch";
    "t3.small.elasticsearch";
    "c5.2xlarge.elasticsearch";
    "c6g.2xlarge.elasticsearch";
    "d2.8xlarge.elasticsearch";
    "c5.4xlarge.elasticsearch";
    "t4g.medium.elasticsearch";
    "c6g.4xlarge.elasticsearch";
    "c6g.xlarge.elasticsearch";
    "c6g.12xlarge.elasticsearch";
    "c5.xlarge.elasticsearch";
    "c5.large.elasticsearch";
    "t4g.small.elasticsearch";
    "c5.9xlarge.elasticsearch";
    "c6g.8xlarge.elasticsearch";
    "c6g.large.elasticsearch";
    "d2.xlarge.elasticsearch";
    "ultrawarm1.medium.elasticsearch";
    "t3.nano.elasticsearch";
    "t3.medium.elasticsearch";
    "m6g.2xlarge.elasticsearch";
    "t3.2xlarge.elasticsearch";
    "c5.18xlarge.elasticsearch";
    "m6g.4xlarge.elasticsearch";
    "r6gd.2xlarge.elasticsearch";
    "m5.xlarge.elasticsearch";
    "r6gd.4xlarge.elasticsearch";
    "r6g.2xlarge.elasticsearch";
    "r5.2xlarge.elasticsearch";
    "m5.12xlarge.elasticsearch";
    "m6g.8xlarge.elasticsearch";
    "m6g.large.elasticsearch";
    "m5.24xlarge.elasticsearch";
    "r6g.4xlarge.elasticsearch";
    "t3.large.elasticsearch";
    "r5.4xlarge.elasticsearch";
    "ultrawarm1.large.elasticsearch";
    "r6gd.8xlarge.elasticsearch";
    "r6gd.large.elasticsearch";
    "r6g.xlarge.elasticsearch";
    "r5.xlarge.elasticsearch";
    "r6g.12xlarge.elasticsearch";
    "r5.12xlarge.elasticsearch";
    "m5.2xlarge.elasticsearch";
    "r6gd.xlarge.elasticsearch";
    "r6g.8xlarge.elasticsearch";
    "r6g.large.elasticsearch";
    "r5.24xlarge.elasticsearch";
    "r5.large.elasticsearch" ].

(** [elasticsearch_instance_types.concat(elasticsearch_instance_types.map(
      (type) => type.replace('elasticsearch', 'search')))] *)
Definition ALLOWABLE_SEARCHABLE_INSTANCE_TYPES : list string :=
  elasticsearch_instance_types ++
  map (fun type => replace "elasticsearch" "search" type)
      elasticsearch_instance_types.

(** The check run on one base element: it ends in [.elasticsearch], and
    the replacement turns exactly that ending into [.search]. *)
Definition suffixReplaced (type : string) : bool :=
  match stripSuffix ".elasticsearch" type with
  | Some p => String.eqb (replace "elasticsearch" "search" type) (p +:+ ".search")
  | None => false
  end.

End Searchable.

(* ================================================================= *)
(** ** The [AmplifyGraphqlApi] construct *)

Module GraphqlApi.

(** *** The construct tree

    A construct is an object: it is known by its reference [ref] (two
    constructs are the same object, [===], when their references are the
    same), and it holds its children. *)

Definition Ref := nat.

Inductive ConstructKind :=
| KStack                 (* a [Stack], nested stacks included *)
| KAmplifyGraphqlApi     (* [instanceof AmplifyGraphqlApi] *)
| KOther.

Inductive Construct :=
| MkConstruct (ref : Ref) (id : string) (kind : ConstructKind)
              (children : list Construct).

Definition ref (c : Construct) : Ref :=
  match c with MkConstruct r _ _ _ => r end.

Definition kind (c : Construct) : ConstructKind :=
  match c with MkConstruct _ _ k _ => k end.

Definition children (c : Construct) : list Construct :=
  match c with MkConstruct _ _ _ cs => cs end.

(** [node instanceof AmplifyGraphqlApi] *)
Definition isAmplifyGraphqlApi (node : Construct) : bool :=
  match kind node with KAmplifyGraphqlApi => true | _ => false end.

Definition isStack (node : Construct) : bool :=
  match kind node with KStack => true | _ => false end.

(** The heap of constructs: the tree the application is building and the
    next free reference. *)
Record Heap := { tree : Construct; nextRef : Ref }.

(** [scope.node.addChild(child)]: [child] becomes the last child of the
    construct [scope]. *)
Fixpoint addChild (scope : Ref) (child : Construct) (t : Construct) : Construct :=
  match t with
  | MkConstruct r i k cs =>
      let cs' := map (addChild scope child) cs in
      MkConstruct r i k (if Nat.eqb r scope then cs' ++ [child] else cs')
  end.

Definition firstSome {A B : Type} (f : A -> option B) : list A -> option B :=
  fix go (l : list A) : option B :=
    match l with
    | [] => None
    | a :: l' => match f a with Some b => Some b | None => go l' end
    end.

(** [node.scopes]: the constructs from the root of the tree down to the
    construct [target], itself included. *)
Fixpoint scopes (target : Ref) (t : Construct) : option (list Construct) :=
  match t with
  | MkConstruct r _ _ cs =>
      if Nat.eqb r target then Some [t]
      else match firstSome (scopes target) cs with
           | Some path => Some (t :: path)
           | None => None
           end
  end.

(** The constructs of a tree, each before its children. *)
Fixpoint nodes (c : Construct) : list Construct :=
  match c with
  | MkConstruct _ _ _ cs => c :: flat_map nodes cs
  end.

(** The references of the constructs of a tree. *)
Definition refs (c : Construct) : list Ref := map ref (nodes c).

(** A heap is well formed when no two constructs of its tree share a
    reference and all references were given out before [nextRef]. *)
Definition wellFormed (h : Heap) : Prop :=
  NoDup (refs (tree h)) /\ Forall (fun r => r < nextRef h) (refs (tree h)).

(** *** Exceptions, the trace of calls, and the monad of the constructor *)

Inductive Exn := Error (message : string).

Definition Result (A : Type) : Type := (Exn + A)%type.

(** [a ?? b] *)
Definition nullish {A : Type} (a : option A) (b : A) : A :=
  match a with Some x => x | None => b end.

Notation "a ?? b" := (nullish a b) (at level 45, left associativity).

(** JavaScript objects used as records of optional settings, and the
    spread [{ ...base, ...over }]: the keys of [base] keep their place and
    take the value [over] gives them, if any; the other keys of [over]
    follow. *)
Definition JsObject (V : Type) : Type := list (string * V).

Definition hasKey {V : Type} (o : JsObject V) (k : string) : bool :=
  existsb (fun kv => String.eqb (fst kv) k) o.

Definition getKey {V : Type} (o : JsObject V) (k : string) : option V :=
  option_map snd (find (fun kv => String.eqb (fst kv) k) o).

Definition spread {V : Type} (base over : JsObject V) : JsObject V :=
  map (fun kv => (fst kv, getKey over (fst kv) ?? snd kv)) base
  ++ filter (fun kv => negb (hasKey base (fst kv))) over.

(** [if (value)] on an optional string: neither [undefined] nor empty. *)
Definition truthy (value : option string) : option string :=
  match value with
  | Some s => if String.eqb s "" then None else Some s
  | None => None
  end.

(** The types of the values that the constructor only passes along. *)
Class Types := {
  AuthorizationModes : Type;
  AuthConfig : Type;
  AuthSynthParameters : Type;
  FunctionSlot : Type;
  SeparatedSlots : Type;
  UserDefinedSlots : Type;
  ConflictResolution : Type;
  ResolverConfig : Type;
  TransformerPlugin : Type;
  FunctionNameMap : Type;
  TranslationValue : Type;
  OutputStorageStrategy : Type;
  ResolverAssets : Type;
  CodegenAssets : Type
}.

Section Constructor.
Context {T : Types}.

Record IAmplifyGraphqlDefinition := {
  def_schema : string;
  def_functionSlots : list FunctionSlot
}.

Record IBucket := { bucketName : string }.

Record AmplifyGraphqlApiProps := {
  definition : IAmplifyGraphqlDefinition;
  authorizationModes : AuthorizationModes;
  conflictResolution : option ConflictResolution;
  functionSlots : option (list FunctionSlot);
  transformerPlugins : option (list TransformerPlugin);
  predictionsBucket : option IBucket;
  stackMappings : option (JsObject string);
  translationBehavior : option (JsObject TranslationValue);
  functionNameMap : option FunctionNameMap;
  outputStorageStrategy : option OutputStorageStrategy;
  apiName : option string
}.

(** The argument of [executeTransform]. The two providers
    ([nestedStackProvider], [assetProvider]) are fixed closures over the
    asset manager and are not part of the record. *)
Record SynthParameters := {
  amplifyEnvironmentName : string;
  sp_apiName : string;
  sp_auth : AuthSynthParameters
}.

Record TransformersFactoryArgs := {
  customTransformers : list TransformerPlugin;
  storageConfig : option string;
  tfa_functionNameMap : option FunctionNameMap
}.

Record ExecuteTransformConfig := {
  cfg_scope : Ref;
  synthParameters : SynthParameters;
  cfg_schema : string;
  userDefinedSlots : UserDefinedSlots;
  transformersFactoryArgs : TransformersFactoryArgs;
  cfg_authConfig : AuthConfig;
  stackMapping : JsObject string;
  resolverConfig : option ResolverConfig;
  transformParameters : JsObject TranslationValue
}.

Record CfnGraphqlApi := {
  attrApiId : string;
  attrGraphQlUrl : string;
  attrRealtimeUrl : string;
  authenticationType : string
}.

Record AmplifyGraphqlApiResources := {
  cfnGraphqlApi : CfnGraphqlApi;
  cfnApiKey : option string       (* its [attrApiKey] *)
}.

Record GraphqlOutputPayload := {
  awsAppsyncApiId : string;
  awsAppsyncApiEndpoint : string;
  awsAppsyncAuthenticationType : string;
  awsAppsyncRegion : string;
  amplifyApiModelSchemaS3Uri : string;
  awsAppsyncApiKey : option string;
  awsAppsyncAdditionalAuthenticationTypes : option string;
  awsAppsyncConflictResolutionMode : option string
}.

Record GraphqlOutput := { version : string; payload : GraphqlOutputPayload }.

(** The calls that the trace records, in the order they are made: those
    of the constructor to the functions that may throw or change the
    construct tree. [new AssetManager()], [Stack.of], the default
    [StackMetadataBackendOutputStorageStrategy] and
    [getAdditionalAuthenticationTypes] are not recorded. *)
Inductive Event :=
| CallAddAmplifyMetadataToStackDescription (scope : Ref)
| CallConvertAuthorizationModesToTransformerAuthConfig
| CallValidateFunctionSlots
| CallSeparateSlots
| CallTryGetContext (key : string)
| CallParseUserDefinedSlots
| CallConvertToResolverConfig
| CallExecuteTransform (config : ExecuteTransformConfig)
| CallNewCodegenAssets
| CallGetGeneratedResources
| CallGetGeneratedFunctionSlots
| CallAddBackendOutputEntry (output : GraphqlOutput).

Record World := { heap : Heap; trace : list Event }.

Definition M (A : Type) : Type := World -> Result A * World.

Definition ret {A : Type} (a : A) : M A := fun w => (inr a, w).

Definition throw {A : Type} (e : Exn) : M A := fun w => (inl e, w).

Definition bind {A B : Type} (m : M A) (k : A -> M B) : M B :=
  fun w => match m w with
           | (inl e, w') => (inl e, w')
           | (inr a, w') => k a w'
           end.

Notation "x <- m ;; k" := (bind m (fun x => k))
  (at level 61, m at next level, right associativity).
Notation "m ;;; k" := (bind m (fun _ => k))
  (at level 61, right associativity).

Definition emit (e : Event) : M unit :=
  fun w => (inr tt, {| heap := heap w; trace := trace w ++ [e] |}).

(** A call of a function that works on the construct tree. *)
Definition call {A : Type} (e : Event) (f : Heap -> Result A * Heap) : M A :=
  emit e ;;;
  fun w => let (r, h) := f (heap w) in (r, {| heap := h; trace := trace w |}).

(** A call of a function that only computes. *)
Definition callPure {A : Type} (e : Event) (r : Result A) : M A :=
  emit e ;;; fun w => (r, w).

(** The functions the constructor calls and whose code lies outside this
    file: each may throw, and those given the heap may change the tree. *)
Class Collaborators := {
  addAmplifyMetadataToStackDescription : Ref -> Heap -> Result unit * Heap;
  convertAuthorizationModesToTransformerAuthConfig :
    AuthorizationModes -> Result (AuthConfig * AuthSynthParameters);
  validateFunctionSlots : list FunctionSlot -> Result unit;
  separateSlots : list FunctionSlot -> Result SeparatedSlots;
  parseUserDefinedSlots : SeparatedSlots -> Result UserDefinedSlots;
  convertToResolverConfig : ConflictResolution -> Result ResolverConfig;
  defaultTranslationBehavior : JsObject TranslationValue;
  tryGetContext : Heap -> Ref -> string -> option string;
  executeTransform : ExecuteTransformConfig -> Heap -> Result ResolverAssets * Heap;
  newCodegenAssets : Ref -> string -> string -> Heap -> Result CodegenAssets * Heap;
  modelSchemaS3Uri : CodegenAssets -> string;
  getGeneratedResources : Ref -> Heap -> Result AmplifyGraphqlApiResources * Heap;
  getGeneratedFunctionSlots : ResolverAssets -> Result (list FunctionSlot);
  getAdditionalAuthenticationTypes : CfnGraphqlApi -> option string;
  handlerType : ConflictResolution -> option string;
  stackRegion : Heap -> Ref -> string;
  addBackendOutputEntry :
    option OutputStorageStrategy -> Ref -> GraphqlOutput -> Heap -> Result unit * Heap
}.

Context {C : Collaborators}.

(** [super(scope, id)]: the constructor of [Construct] makes the new
    object and adds it to the children of [scope]. *)
Definition Construct_constructor (k : ConstructKind) (scope : Ref) (id : string)
  : M Ref :=
  fun w =>
    let this := nextRef (heap w) in
    (inr this,
     {| heap := {| tree := addChild scope (MkConstruct this id k []) (tree (heap w));
                   nextRef := S this |};
        trace := trace w |}).

(** Modelled from the spec: [getStackForScope] of
    [./internal/construct-tree] is not in the sources. As it is used here
    ([const rootStack = getStackForScope(scope, true)]) it returns, of the
    stacks among the scopes of the construct, the outermost one when
    [getRootStack] is set and the innermost one otherwise, and throws when
    the construct lies in no stack. *)
Definition getStackForScope (scope : Ref) (getRootStack : bool) : M Construct :=
  fun w =>
    let stacksInHierarchy := filter isStack (scopes scope (tree (heap w)) ?? []) in
    match (if getRootStack then hd_error stacksInHierarchy
           else hd_error (rev stacksInHierarchy)) with
    | Some stack => (inr stack, w)
    | None => (inl (Error "No Stack Found in Construct Scope"), w)
    end.

(** Modelled from the spec: [walkAndProcessNodes] of
    [./internal/construct-tree] is not in the sources. Following the
    comment of its caller ("walk the node tree"), it calls [processNode]
    on the construct and then walks each of its children. The callback
    of the source assigns to a variable of its caller; here it takes and
    returns the value of that variable. *)
Fixpoint walkAndProcessNodes {S : Type} (currentScope : Construct)
  (processNode : Construct -> S -> S) (s : S) {struct currentScope} : S :=
  match currentScope with
  | MkConstruct _ _ _ cs =>
      fold_left (fun s' child => walkAndProcessNodes child processNode s')
                cs (processNode currentScope s)
  end.

(** Given the provided scope, walk the node tree, and throw an exception if
    any other AmplifyGraphqlApi constructs are found in the stack. *)
Definition validateNoOtherAmplifyGraphqlApiInStack (scope : Ref) : M unit :=
  rootStack <- getStackForScope scope true ;;
  let wasOtherAmplifyGraphlApiFound :=
    walkAndProcessNodes rootStack
      (fun node found =>
         if isAmplifyGraphqlApi node && negb (Nat.eqb scope (ref node))
         then true else found)
      false in
  if wasOtherAmplifyGraphlApiFound
  then throw (Error "Only one AmplifyGraphqlApi is expected in a stack")
  else ret tt.

(** The object the constructor builds. *)
Record AmplifyGraphqlApi := {
  self : Ref;
  resources : AmplifyGraphqlApiResources;
  codegenAssets : CodegenAssets;
  generatedFunctionSlots : list FunctionSlot;
  graphqlUrl : string;
  realtimeUrl : string;
  apiKey : option string;
  apiId : string;
  api_conflictResolution : option ConflictResolution
}.

(** [storeOutput(outputStorageStrategy)]: the output is built and handed
    to the strategy (the default one, of the stack of the construct, when
    [strategy] is absent). [conflict?.project?.handlerType] is the
    collaborator [handlerType]. *)
Definition storeOutput (this : Ref) (res : AmplifyGraphqlApiResources)
  (assets : CodegenAssets) (conflict : option ConflictResolution)
  (strategy : option OutputStorageStrategy) : M unit :=
  fun w =>
    let output :=
      {| version := "1";
         payload :=
           {| awsAppsyncApiId := attrApiId (cfnGraphqlApi res);
              awsAppsyncApiEndpoint := attrGraphQlUrl (cfnGraphqlApi res);
              awsAppsyncAuthenticationType := authenticationType (cfnGraphqlApi res);
              awsAppsyncRegion := stackRegion (heap w) this;
              amplifyApiModelSchemaS3Uri := modelSchemaS3Uri assets;
              awsAppsyncApiKey := cfnApiKey res;
              awsAppsyncAdditionalAuthenticationTypes :=
                truthy (getAdditionalAuthenticationTypes (cfnGraphqlApi res));
              awsAppsyncConflictResolutionMode :=
                match conflict with
                | Some c => truthy (handlerType c)
                | None => None
                end |} |} in
    call (CallAddBackendOutputEntry output)
         (addBackendOutputEntry strategy this output) w.

(** What the first statements of the constructor leave for the rest. *)
Record Prologue := {
  this : Ref;
  authConfig : AuthConfig;
  authSynthParameters : AuthSynthParameters;
  separatedFunctionSlots : SeparatedSlots
}.

(** The constructor up to and including [separateSlots]. *)
Definition constructorPrologue (scope : Ref) (id : string)
  (props : AmplifyGraphqlApiProps) : M Prologue :=
  this <- Construct_constructor KAmplifyGraphqlApi scope id ;;
  validateNoOtherAmplifyGraphqlApiInStack this ;;;
  call (CallAddAmplifyMetadataToStackDescription scope)
       (addAmplifyMetadataToStackDescription scope) ;;;
  auth <- callPure CallConvertAuthorizationModesToTransformerAuthConfig
            (convertAuthorizationModesToTransformerAuthConfig
               (authorizationModes props)) ;;
  callPure CallValidateFunctionSlots
           (validateFunctionSlots (functionSlots props ?? [])) ;;;
  separated <- callPure CallSeparateSlots
                 (separateSlots ((functionSlots props ?? [])
                                 ++ def_functionSlots (definition props))) ;;
  ret {| this := this;
         authConfig := fst auth;
         authSynthParameters := snd auth;
         separatedFunctionSlots := separated |}.

Definition amplifyEnvironmentNameKey : string := "amplifyEnvironmentName".

(** [this.node.tryGetContext('amplifyEnvironmentName') ?? 'NONE'] and the
    check of its length. *)
Definition readAmplifyEnvironmentName (this : Ref) : M string :=
  name <- call (CallTryGetContext amplifyEnvironmentNameKey)
            (fun h => (inr (tryGetContext h this amplifyEnvironmentNameKey ?? "NONE"), h)) ;;
  if Nat.ltb 8 (String.length name)
  then throw (Error ("or cdk --context env must have a length <= 8, found " +:+ name))
  else ret name.

(** The constructor from [executeTransform] on. *)
Definition constructorTransform (id : string) (props : AmplifyGraphqlApiProps)
  (p : Prologue) (name : string) : M AmplifyGraphqlApi :=
  slots <- callPure CallParseUserDefinedSlots
             (parseUserDefinedSlots (separatedFunctionSlots p)) ;;
  resolverCfg <- match conflictResolution props with
                 | Some c => r <- callPure CallConvertToResolverConfig
                                    (convertToResolverConfig c) ;;
                             ret (Some r)
                 | None => ret None
                 end ;;
  let config :=
    {| cfg_scope := this p;
       synthParameters :=
         {| amplifyEnvironmentName := name;
            sp_apiName := apiName props ?? id;
            sp_auth := authSynthParameters p |};
       cfg_schema := def_schema (definition props);
       userDefinedSlots := slots;
       transformersFactoryArgs :=
         {| customTransformers := transformerPlugins props ?? [];
            storageConfig := match predictionsBucket props with
                             | Some b => Some (bucketName b)
                             | None => None
                             end;
            tfa_functionNameMap := functionNameMap props |};
       cfg_authConfig := authConfig p;
       stackMapping := stackMappings props ?? [];
       resolverConfig := resolverCfg;
       transformParameters :=
         spread defaultTranslationBehavior (translationBehavior props ?? []) |} in
  resolverAssets <- call (CallExecuteTransform config) (executeTransform config) ;;
  assets <- call CallNewCodegenAssets
              (newCodegenAssets (this p) "AmplifyCodegenAssets"
                                (def_schema (definition props))) ;;
  res <- call CallGetGeneratedResources (getGeneratedResources (this p)) ;;
  generated <- callPure CallGetGeneratedFunctionSlots
                 (getGeneratedFunctionSlots resolverAssets) ;;
  storeOutput (this p) res assets (conflictResolution props)
              (outputStorageStrategy props) ;;;
  ret {| self := this p;
         resources := res;
         codegenAssets := assets;
         generatedFunctionSlots := generated;
         graphqlUrl := attrGraphQlUrl (cfnGraphqlApi res);
         realtimeUrl := attrRealtimeUrl (cfnGraphqlApi res);
         apiKey := cfnApiKey res;
         apiId := attrApiId (cfnGraphqlApi res);
         api_conflictResolution := conflictResolution props |}.

(** [new AmplifyGraphqlApi(scope, id, props)] *)
Definition AmplifyGraphqlApi_constructor (scope : Ref) (id : string)
  (props : AmplifyGraphqlApiProps) : M AmplifyGraphqlApi :=
  p <- constructorPrologue scope id props ;;
  name <- readAmplifyEnvironmentName (this p) ;;
  constructorTransform id props p name.

(** A construct that makes the guard fail for [this]: an
    [AmplifyGraphqlApi] that is not [this] itself. *)
Definition otherAmplifyGraphqlApi (this : Ref) (node : Construct) : bool :=
  isAmplifyGraphqlApi node && negb (Nat.eqb this (ref node)).

Definition onlyOneError : Exn :=
  Error "Only one AmplifyGraphqlApi is expected in a stack".

Definition environmentNameError (name : string) : Exn :=
  Error ("or cdk --context env must have a length <= 8, found " +:+ name).

(** Whether the trace holds a call of [executeTransform]. *)
Definition isExecuteTransform (e : Event) : bool :=
  match e with CallExecuteTransform _ => true | _ => false end.

End Constructor.

(** *** A small application to run the constructor on

    An [App] holding one [Stack]; the values the constructor only passes
    along are of type [unit], and every collaborator returns at once. The
    context value of [amplifyEnvironmentName] is the parameter [env]. *)

Definition demoTypes : Types :=
  {| AuthorizationModes := unit; AuthConfig := unit; AuthSynthParameters := unit;
     FunctionSlot := unit; SeparatedSlots := unit; UserDefinedSlots := unit;
     ConflictResolution := unit; ResolverConfig := unit;
     TransformerPlugin := unit; FunctionNameMap := unit;
     TranslationValue := unit; OutputStorageStrategy := unit;
     ResolverAssets := unit; CodegenAssets := unit |}.

#[local] Existing Instance demoTypes.

Definition demoResources : @AmplifyGraphqlApiResources :=
  {| cfnGraphqlApi := {| attrApiId := "id"; attrGraphQlUrl := "url";
                         attrRealtimeUrl := "realtime";
                         authenticationType := "API_KEY" |};
     cfnApiKey := None |}.

Definition demoCollaborators (env : option string) : @Collaborators demoTypes :=
  {| addAmplifyMetadataToStackDescription := fun _ h => (inr tt, h);
     convertAuthorizationModesToTransformerAuthConfig := fun _ => inr (tt, tt);
     validateFunctionSlots := fun _ => inr tt;
     separateSlots := fun _ => inr tt;
     parseUserDefinedSlots := fun _ => inr tt;
     convertToResolverConfig := fun _ => inr tt;
     defaultTranslationBehavior := [];
     tryGetContext := fun _ _ key =>
       if String.eqb key "amplifyEnvironmentName" then env else None;
     executeTransform := fun _ h => (inr tt, h);
     newCodegenAssets := fun _ _ _ h => (inr tt, h);
     modelSchemaS3Uri := fun _ => "s3://schema";
     getGeneratedResources := fun _ h => (inr demoResources, h);
     getGeneratedFunctionSlots := fun _ => inr [];
     getAdditionalAuthenticationTypes := fun _ => None;
     handlerType := fun _ => None;
     stackRegion := fun _ _ => "us-east-1";
     addBackendOutputEntry := fun _ _ _ h => (inr tt, h) |}.

Definition demoProps : @AmplifyGraphqlApiProps demoTypes :=
  {| definition := {| def_schema := "type Todo @model { id: ID! }";
                      def_functionSlots := [] |};
     authorizationModes := tt;
     conflictResolution := None;
     functionSlots := None;
     transformerPlugins := None;
     predictionsBucket := None;
     stackMappings := None;
     translationBehavior := None;
     functionNameMap := None;
     outputStorageStrategy := None;
     apiName := None |}.

(** An [AmplifyGraphqlApi] that the stack may already hold. *)
Definition otherApi : Construct := MkConstruct 2 "api" KAmplifyGraphqlApi [].

(** [App] (0) with the stack [Stack] (1), which holds [children]. *)
Definition demoWorld (children : list Construct) (next : Ref) : @World demoTypes :=
  {| heap := {| tree := MkConstruct 0 "App" KOther
                          [MkConstruct 1 "Stack" KStack children];
                nextRef := next |};
     trace := [] |}.

End GraphqlApi.

(* ================================================================= *)
(** ** The transformer core: data model and resolver accumulator

    The sources hold the tests and the exports of the transformer core,
    not its code; the definitions of this module follow sections 3 and 4
    of the specification. *)

Module TransformerCore.

(** Modelled from the spec: the literal values of directive arguments
    (section 9: string, int, float, bool, list, enum symbol, null); the
    code of the document model is not in the sources. A float is kept as
    its literal text. *)
Inductive Value :=
| VString (s : string)
| VInt (n : Z)
| VFloat (literal : string)
| VBool (b : bool)
| VList (items : list Value)
| VEnum (symbol : string)
| VNull.

(** Modelled from the spec: a Directive (section 3), a name and a mapping
    from argument names to values. *)
Record Directive := {
  directiveName : string;
  arguments : list (string * Value)
}.

(** Modelled from the spec: a type reference, "possibly list/non-null
    wrapped" (section 3). *)
Inductive TypeRef :=
| NamedType (name : string)
| ListType (inner : TypeRef)
| NonNullType (inner : TypeRef).

(** Modelled from the spec: a FieldDefinition (section 3). *)
Record FieldDefinition := {
  fieldName : string;
  fieldType : TypeRef;
  fieldDirectives : list Directive;
  defaultValue : option Value
}.

(** Modelled from the spec: the kinds of type definitions (section 3). *)
Inductive TypeKind :=
| ObjectKind | InterfaceKind | EnumKind | InputKind | UnionKind | ScalarKind.

(** Modelled from the spec: a TypeDefinition (section 3). *)
Record TypeDefinition := {
  typeName : string;
  typeKind : TypeKind;
  fields : list FieldDefinition;
  typeDirectives : list Directive
}.

(** Modelled from the spec: a SchemaDocument (section 3), the ordered
    collection of its type definitions. *)
Definition SchemaDocument : Type := list TypeDefinition.

(** Modelled from the spec: a DataSourceStrategy (section 3), the kind of
    backing store of a model type and its connection parameters. *)
Record DataSourceStrategy := {
  strategyName : string;
  dbType : string;
  connection : list (string * string)
}.

(** Modelled from the spec: a ResolverPipelineEntry (section 3), keyed by
    type name, field name, stage and slot index, holding the logic
    fragment a transformer contributed. *)
Record ResolverPipelineEntry := {
  entryType : string;
  entryField : string;
  entryStage : string;
  entrySlot : nat;
  contributorId : string;
  logic : string
}.

(** Modelled from the spec: the resolver accumulator (sections 2 and 4.5),
    the entries in the order in which they were contributed. *)
Definition Accumulator : Type := list ResolverPipelineEntry.

(** Modelled from the spec: whether an entry belongs to the pipeline of
    (type, field, stage). *)
Definition inPipeline (type field stage : string) (e : ResolverPipelineEntry) : bool :=
  String.eqb type (entryType e) && String.eqb field (entryField e)
  && String.eqb stage (entryStage e).

(** Modelled from the spec: the next slot of (type, field, stage); "first
    contributor gets slot 0, next gets slot 1, etc." (section 4.5). *)
Definition nextSlot (type field stage : string) (acc : Accumulator) : nat :=
  length (filter (inPipeline type field stage) acc).

(** Modelled from the spec: the SlotCollisionError of section 7, which
    "identifies both contributors". *)
Record SlotCollisionError := {
  firstContributor : string;
  secondContributor : string
}.

(** Modelled from the spec: the entry a contribution makes, in the next
    slot of its (type, field, stage). *)
Definition newEntry (type field stage contributor logicText : string)
  (acc : Accumulator) : ResolverPipelineEntry :=
  {| entryType := type; entryField := field; entryStage := stage;
     entrySlot := nextSlot type field stage acc;
     contributorId := contributor; logic := logicText |}.

(** Modelled from the spec: [addPipelineEntry(type, field, stage,
    contributorId, logic) -> slotIndex | fails with SlotCollisionError]
    (section 4.5); its code is not in the sources. The entry takes the
    next slot of its (type, field, stage); the call fails when an entry
    already holds that (type, field, stage, slot). *)
Definition addPipelineEntry (type field stage contributor logicText : string)
  (acc : Accumulator) : SlotCollisionError + (nat * Accumulator) :=
  let slotIndex := nextSlot type field stage acc in
  match find (fun e => inPipeline type field stage e
                       && Nat.eqb (entrySlot e) slotIndex) acc with
  | Some e => inl {| firstContributor := contributorId e;
                     secondContributor := contributor |}
  | None =>
      inr (slotIndex,
           acc ++ [newEntry type field stage contributor logicText acc])
  end.

(** Modelled from the spec: the invariant of section 3, "slot indices
    within a (Type,Field,Stage) are strictly increasing in transformer
    execution order": in every pipeline the slots are 0, 1, 2, ... in the
    order of contribution. *)
Definition slotsInOrder (acc : Accumulator) : Prop :=
  forall type field stage,
    map entrySlot (filter (inPipeline type field stage) acc)
    = seq 0 (nextSlot type field stage acc).

(** Modelled from the spec: "slots ascending". *)
Definition slotLe (a b : ResolverPipelineEntry) : Prop :=
  entrySlot a <= entrySlot b.

(** Modelled from the spec: one call of [addPipelineEntry], as a
    transformer makes it. *)
Record Contribution := {
  toType : string;
  toField : string;
  toStage : string;
  by_ : string;
  fragment : string
}.

(** Modelled from the spec: the calls of [addPipelineEntry] of a run, made
    one after the other; the result holds the slot index each call
    returned. *)
Fixpoint contribute (calls : list Contribution) (acc : Accumulator)
  : SlotCollisionError + (list nat * Accumulator) :=
  match calls with
  | [] => inr ([], acc)
  | c :: rest =>
      match addPipelineEntry (toType c) (toField c) (toStage c) (by_ c)
                             (fragment c) acc with
      | inl e => inl e
      | inr (slotIndex, acc') =>
          match contribute rest acc' with
          | inl e => inl e
          | inr (slots, acc'') => inr (slotIndex :: slots, acc'')
          end
      end
  end.

(** Modelled from the spec: whether a call goes to (type, field, stage). *)
Definition toPipeline (type field stage : string) (c : Contribution) : bool :=
  String.eqb type (toType c) && String.eqb field (toField c)
  && String.eqb stage (toStage c).

(** Modelled from the spec: the slot indices that the calls to
    (type, field, stage) received, in the order of the calls. *)
Definition slotsOf (type field stage : string)
  (calls : list Contribution) (slots : list nat) : list nat :=
  map snd (filter (fun cs => toPipeline type field stage (fst cs))
                  (combine calls slots)).

(** Modelled from the spec: the slot index in decimal. *)
Definition decimal (n : nat) : string :=
  NilEmpty.string_of_uint (Nat.to_uint n).

(** Modelled from the spec: the single serialization of the structured key
    (type, field, stage, slot) (sections 6 and 9):
    ["{Type}.{field}.{stage}.{slotIndex}.req.vtl"]. *)
Definition serializeKey (type field stage : string) (slotIndex : nat) : string :=
  type +:+ "." +:+ field +:+ "." +:+ stage +:+ "." +:+ decimal slotIndex
       +:+ ".req.vtl".

(** Modelled from the spec: the ResolverMap (section 6), from keys to the
    text of the generated logic, in the order [finalize] produced. *)
Definition ResolverMap : Type := list (string * string).

(** Modelled from the spec: "sorts slots ascending" (section 4.5), as an
    insertion sort that keeps entries of equal slot in their order. *)
Fixpoint insertBySlot (e : ResolverPipelineEntry) (sorted : list ResolverPipelineEntry)
  : list ResolverPipelineEntry :=
  match sorted with
  | [] => [e]
  | x :: rest =>
      if Nat.leb (entrySlot e) (entrySlot x) then e :: sorted
      else x :: insertBySlot e rest
  end.

(** Modelled from the spec: the entries sorted by slot. *)
Fixpoint sortBySlot (entries : list ResolverPipelineEntry) : list ResolverPipelineEntry :=
  match entries with
  | [] => []
  | e :: rest => insertBySlot e (sortBySlot rest)
  end.

(** Modelled from the spec: the key and text of one entry. *)
Definition resolverOf (e : ResolverPipelineEntry) : string * string :=
  (serializeKey (entryType e) (entryField e) (entryStage e) (entrySlot e),
   logic e).

(** Modelled from the spec: the authentication providers of section 6. *)
Inductive AuthenticationType :=
| API_KEY | AWS_IAM | AMAZON_COGNITO_USER_POOLS | OPENID_CONNECT | AWS_LAMBDA.

(** Modelled from the spec: the auth configuration descriptor (section 6),
    a default provider and the additional ones. *)
Record AppSyncAuthConfiguration := {
  defaultAuthentication : AuthenticationType;
  additionalAuthenticationProviders : list AuthenticationType
}.

(** Modelled from the spec: the TransformerContext (section 3), which owns
    the schema document, the resolver entries, the data source strategies
    and the placement hints; it also holds the auth configuration and the
    asset requests of section 6. *)
Record TransformerContext := {
  schema : SchemaDocument;
  resolvers : Accumulator;
  dataSourceStrategies : list (string * DataSourceStrategy);
  authConfig : AppSyncAuthConfiguration;
  stackMapping : list (string * string);
  assets : list (string * string)
}.

(** Modelled from the spec: [finalize(context) -> ResolverMap] (section
    4.5), which "sorts slots ascending and produces the key format
    Type.field.stage.slotIndex for each entry"; its code is not in the
    sources. *)
Definition finalize (context : TransformerContext) : ResolverMap :=
  map resolverOf (sortBySlot (resolvers context)).

End TransformerCore.

(* ================================================================= *)
(** ** The directive definitions of the sources *)

Module Directives.

(** [Directive] of [./directive]: the name of a directive, its definition
    in SDL and the default values of its arguments. *)
Record Directive := {
  name : string;
  definition : string;
  defaults : list (string * string)
}.

Definition predictionsName : string := "predictions".

(** The template literal of the source, with [${name}] filled in. *)
Definition predictionsDefinition : string :=
  "
  directive @" +:+ predictionsName +:+ "(actions: [PredictionsActions!]!) on FIELD_DEFINITION
  enum PredictionsActions {
    identifyText
    identifyLabels
    convertTextToSpeech
    translateText
  }
".

Definition PredictionsDirective : Directive :=
  {| name := predictionsName;
     definition := predictionsDefinition;
     defaults := [] |}.

End Directives.

(* ================================================================= *)
(** ** The transformer core: registry, plugins and orchestrator *)

Module Pipeline.
Import TransformerCore.

(** Modelled from the spec: the locations a directive may be applied at
    (section 4.2: "FIELD_DEFINITION, OBJECT, etc."). *)
Inductive DirectiveLocation :=
| OBJECT | FIELD_DEFINITION | INTERFACE | ENUM | ENUM_VALUE
| INPUT_OBJECT | INPUT_FIELD_DEFINITION | UNION | SCALAR.

(** Modelled from the spec: the expected shape of an argument value
    (section 9: "schema-declared expected shapes"). *)
Inductive ArgumentType :=
| TString | TInt | TFloat | TBool | TEnum
| TList (item : ArgumentType).

(** Modelled from the spec: one argument of a directive spec, required or
    optional (section 4.2). *)
Record ArgumentSpec := {
  argumentName : string;
  argumentType : ArgumentType;
  required : bool
}.

(** Modelled from the spec: a directive spec (section 4.2), "a directive
    name with its allowed argument schema and allowed location(s)". *)
Record DirectiveSpec := {
  specName : string;
  specArguments : list ArgumentSpec;
  specLocations : list DirectiveLocation
}.

(** Modelled from the spec: the Directive Registry (section 4.2); its code
    is not in the sources. *)
Definition DirectiveRegistry : Type := list DirectiveSpec.

(** Modelled from the spec: [register(directiveSpec)] (section 4.2). *)
Definition register (spec : DirectiveSpec) (registry : DirectiveRegistry)
  : DirectiveRegistry :=
  registry ++ [spec].

(** Modelled from the spec: the registered spec a directive name resolves
    to (section 4.2, check (a)). *)
Definition lookupSpec (registry : DirectiveRegistry) (directive : string)
  : option DirectiveSpec :=
  find (fun spec => String.eqb (specName spec) directive) registry.

(** Modelled from the spec: the spec that the definition text of
    [PredictionsDirective] declares: one required list argument, on field
    definitions. *)
Definition predictionsSpec : DirectiveSpec :=
  {| specName := Directives.name Directives.PredictionsDirective;
     specArguments := [{| argumentName := "actions";
                          argumentType := TList TEnum;
                          required := true |}];
     specLocations := [FIELD_DEFINITION] |}.

(** Modelled from the spec: the place of a problem in the document, for
    the "(location, message) pairs" of section 4.2. *)
Record NodeLocation := {
  atType : string;
  atField : option string
}.

(** Modelled from the spec: one validation failure (section 4.2). *)
Definition ValidationError : Type := (NodeLocation * string)%type.

(** Modelled from the spec: whether a value has the expected shape. *)
Fixpoint conforms (t : ArgumentType) (v : Value) {struct v} : bool :=
  match t, v with
  | TString, VString _ => true
  | TInt, VInt _ => true
  | TFloat, VFloat _ => true
  | TFloat, VInt _ => true
  | TBool, VBool _ => true
  | TEnum, VEnum _ => true
  | TList item, VList items => forallb (conforms item) items
  | _, _ => false
  end.

(** Modelled from the spec: the location a directive on a type is at. *)
Definition locationOfType (k : TypeKind) : DirectiveLocation :=
  match k with
  | ObjectKind => OBJECT
  | InterfaceKind => INTERFACE
  | EnumKind => ENUM
  | InputKind => INPUT_OBJECT
  | UnionKind => UNION
  | ScalarKind => SCALAR
  end.

(** Modelled from the spec: the location a directive on a field is at. *)
Definition locationOfField (k : TypeKind) : DirectiveLocation :=
  match k with
  | InputKind => INPUT_FIELD_DEFINITION
  | EnumKind => ENUM_VALUE
  | _ => FIELD_DEFINITION
  end.

(** Modelled from the spec: a use of a directive in the document. *)
Record Occurrence := {
  place : NodeLocation;
  location : DirectiveLocation;
  used : Directive
}.

(** Modelled from the spec: the directives a type carries, on itself and
    then on its fields, in source order. *)
Definition occurrencesOfType (ty : TypeDefinition) : list Occurrence :=
  map (fun d => {| place := {| atType := typeName ty; atField := None |};
                   location := locationOfType (typeKind ty);
                   used := d |})
      (typeDirectives ty)
  ++ flat_map
       (fun f =>
          map (fun d => {| place := {| atType := typeName ty;
                                       atField := Some (fieldName f) |};
                           location := locationOfField (typeKind ty);
                           used := d |})
              (fieldDirectives f))
       (fields ty).

(** Modelled from the spec: every use of a directive in the document. *)
Definition occurrences (doc : SchemaDocument) : list Occurrence :=
  flat_map occurrencesOfType doc.

(** Modelled from the spec: equality of locations. *)
Definition locationEqb (a b : DirectiveLocation) : bool :=
  match a, b with
  | OBJECT, OBJECT | FIELD_DEFINITION, FIELD_DEFINITION
  | INTERFACE, INTERFACE | ENUM, ENUM | ENUM_VALUE, ENUM_VALUE
  | INPUT_OBJECT, INPUT_OBJECT
  | INPUT_FIELD_DEFINITION, INPUT_FIELD_DEFINITION
  | UNION, UNION | SCALAR, SCALAR => true
  | _, _ => false
  end.

(** Modelled from the spec: check (b) of section 4.2 for one argument
    that the directive gives. *)
Definition checkArgument (spec : DirectiveSpec) (arg : string * Value) : list string :=
  match find (fun a => String.eqb (argumentName a) (fst arg)) (specArguments spec) with
  | None => ["Unknown argument " +:+ fst arg +:+ " of @" +:+ specName spec]
  | Some a =>
      match snd arg with
      | VNull => if required a
                 then ["Argument " +:+ fst arg +:+ " of @" +:+ specName spec
                         +:+ " must not be null"]
                 else []
      | v => if conforms (argumentType a) v then []
             else ["Argument " +:+ fst arg +:+ " of @" +:+ specName spec
                     +:+ " has the wrong type"]
      end
  end.

(** Modelled from the spec: check (b) of section 4.2 for the required
    arguments that the directive must give. *)
Definition checkRequired (spec : DirectiveSpec) (d : Directive) : list string :=
  flat_map
    (fun a =>
       if required a
          && negb (existsb (fun arg => String.eqb (fst arg) (argumentName a))
                           (arguments d))
       then ["Missing argument " +:+ argumentName a +:+ " of @" +:+ specName spec]
       else [])
    (specArguments spec).

(** Modelled from the spec: the message for a directive name that
    resolves to no registered spec. *)
Definition unknownDirective (d : string) : string := "Unknown directive @" +:+ d.

(** Modelled from the spec: checks (a), (b) and (c) of section 4.2 on one
    use of a directive. *)
Definition checkOccurrence (registry : DirectiveRegistry) (o : Occurrence)
  : list ValidationError :=
  map (fun message => (place o, message))
      match lookupSpec registry (directiveName (used o)) with
      | None => [unknownDirective (directiveName (used o))]
      | Some spec =>
          flat_map (checkArgument spec) (arguments (used o))
          ++ checkRequired spec (used o)
          ++ (if existsb (locationEqb (location o)) (specLocations spec) then []
              else ["Directive @" +:+ specName spec +:+ " is not allowed here"])
      end.

(** Modelled from the spec: the built-in scalars (section 3). *)
Definition builtInScalars : list string := ["ID"; "String"; "Int"; "Float"; "Boolean"].

(** Modelled from the spec: the type a reference names, under its list
    and non-null wrappers. *)
Fixpoint namedTypeOf (t : TypeRef) : string :=
  match t with
  | NamedType n => n
  | ListType t' => namedTypeOf t'
  | NonNullType t' => namedTypeOf t'
  end.

(** Modelled from the spec: membership of a name in a list of names. *)
Definition mem (x : string) (l : list string) : bool :=
  existsb (String.eqb x) l.

(** Modelled from the spec: the names that occur again in a list. *)
Fixpoint duplicates (seen l : list string) : list string :=
  match l with
  | [] => []
  | x :: rest =>
      (if mem x seen then [x] else []) ++ duplicates (x :: seen) rest
  end.

(** Modelled from the spec: check (d) of section 4.2 on one type: its
    type references resolve and it has no duplicate field names. *)
Definition wellFormedType (doc : SchemaDocument) (ty : TypeDefinition)
  : list ValidationError :=
  map (fun f => ({| atType := typeName ty; atField := Some f |},
                 "Duplicate field " +:+ f))
      (duplicates [] (map fieldName (fields ty)))
  ++ flat_map
       (fun f =>
          if mem (namedTypeOf (fieldType f)) (builtInScalars ++ map typeName doc)
          then []
          else [({| atType := typeName ty; atField := Some (fieldName f) |},
                 "Unknown type " +:+ namedTypeOf (fieldType f))])
       (match typeKind ty with EnumKind => [] | _ => fields ty end).

(** Modelled from the spec: [validate(doc) -> ValidationResult] (section
    4.2); failures are collected, not fail-fast, and returned in order. *)
Definition validate (registry : DirectiveRegistry) (doc : SchemaDocument)
  : list ValidationError :=
  flat_map (checkOccurrence registry) (occurrences doc)
  ++ flat_map (wellFormedType doc) doc.

(** Modelled from the spec: the errors a hook may raise (section 7). *)
Inductive HookError :=
| ConflictError (what : string)
| SlotCollision (collision : SlotCollisionError)
| ConfigurationError (what : string).

(** Modelled from the spec: a lifecycle hook; it reads the context and
    returns the context it has changed, or raises an error. *)
Definition Hook : Type := TransformerContext -> HookError + TransformerContext.

(** Modelled from the spec: the Transformer Plugin Interface (section
    4.3): the directives a transformer owns and its four hooks. *)
Record TransformerPlugin := {
  transformerName : string;
  ownedDirectives : list string;
  onTypeDefinition : TypeDefinition -> Directive -> Hook;
  onFieldDefinition : TypeDefinition -> FieldDefinition -> Directive -> Hook;
  transformSchema : Hook;
  generateResolvers : Hook
}.

(** Modelled from the spec: the four hooks by name. *)
Inductive HookKind :=
| OnTypeDefinition | OnFieldDefinition | TransformSchema | GenerateResolvers.

(** Modelled from the spec: one invocation of a hook, with "the offending
    transformer name, type, and field" of section 4.4. *)
Record HookCall := {
  calledTransformer : string;
  calledHook : HookKind;
  onType : option string;
  onField : option string
}.

(** Modelled from the spec: the error taxonomy of section 7, as the caller
    of the pipeline sees it. *)
Inductive PipelineError :=
| ParseError (message : string)
| ValidationErrors (errors : list ValidationError)
| HookFailed (call : HookCall) (cause : HookError)
| SlotCollisionDetected (collision : SlotCollisionError).

(** Modelled from the spec: a run of the pipeline: its context, and the
    hooks invoked so far, in order. *)
Record Run := {
  context : TransformerContext;
  invoked : list HookCall
}.

(** Modelled from the spec: the outputs of section 6. *)
Record Output := {
  outputSchema : string;
  outputResolvers : ResolverMap;
  outputAssets : list (string * string)
}.

(** Modelled from the spec: the states of the orchestrator (section 4.4);
    [Done] holds the output, [Failed] the error, and both the run as it
    was when it ended. *)
Inductive Machine :=
| Parsing (r : Run)
| Validating (r : Run)
| PerNodeTransform (r : Run)
| WholeSchemaTransform (r : Run)
| ResolverGeneration (r : Run)
| FinalValidation (r : Run)
| Done (r : Run) (out : Output)
| Failed (r : Run) (error : PipelineError).

(** Modelled from the spec: the terminal states, [Done] and [Failed]. *)
Definition terminal (m : Machine) : bool :=
  match m with Done _ _ | Failed _ _ => true | _ => false end.

(** Modelled from the spec: the output of a state, if it is [Done]. *)
Definition outputOf (m : Machine) : option Output :=
  match m with Done _ out => Some out | _ => None end.

(** Modelled from the spec: the run a state holds. *)
Definition runOf (m : Machine) : Run :=
  match m with
  | Parsing r | Validating r | PerNodeTransform r | WholeSchemaTransform r
  | ResolverGeneration r | FinalValidation r | Done r _ | Failed r _ => r
  end.

(** Modelled from the spec: the result of a stage: the run it leaves, or
    the run and the error it failed with. *)
Definition StageResult : Type := ((Run * PipelineError) + Run)%type.

(** Modelled from the spec: the invocation of one hook; an error of the
    hook fails the pipeline at once and is wrapped with the call. *)
Definition invoke (call : HookCall) (hook : Hook) (r : Run) : StageResult :=
  let r' := {| context := context r; invoked := invoked r ++ [call] |} in
  match hook (context r) with
  | inl e => inl (r', HookFailed call e)
  | inr c => inr {| context := c; invoked := invoked r' |}
  end.

(** Modelled from the spec: one action per element, in order, stopping at
    the first failure. *)
Fixpoint forEach {A : Type} (action : A -> Run -> StageResult) (l : list A)
  (r : Run) : StageResult :=
  match l with
  | [] => inr r
  | a :: rest =>
      match action a r with
      | inl failure => inl failure
      | inr r' => forEach action rest r'
      end
  end.

(** Modelled from the spec: whether the transformer owns the directive
    (section 4.3). *)
Definition owns (t : TransformerPlugin) (d : Directive) : bool :=
  mem (directiveName d) (ownedDirectives t).

(** Modelled from the spec: the per-node hooks of one transformer on one
    type: for the directives of the type, then for those of its fields,
    "if the node carries that transformer's owned directive". *)
Definition perNodeOfType (t : TransformerPlugin) (ty : TypeDefinition) (r : Run)
  : StageResult :=
  match forEach
          (fun d r0 =>
             if owns t d
             then invoke {| calledTransformer := transformerName t;
                            calledHook := OnTypeDefinition;
                            onType := Some (typeName ty); onField := None |}
                         (onTypeDefinition t ty d) r0
             else inr r0)
          (typeDirectives ty) r with
  | inl failure => inl failure
  | inr r1 =>
      forEach
        (fun f =>
           forEach
             (fun d r0 =>
                if owns t d
                then invoke {| calledTransformer := transformerName t;
                               calledHook := OnFieldDefinition;
                               onType := Some (typeName ty);
                               onField := Some (fieldName f) |}
                            (onFieldDefinition t ty f d) r0
                else inr r0)
             (fieldDirectives f))
        (fields ty) r1
  end.

(** Modelled from the spec: the PerNodeTransform stage (section 4.4): "for
    each transformer in registration order, for each type/field in
    document order"; a transformer walks the document as it is when its
    turn starts, so what it injects is seen by the transformers after it
    and not visited again by it. *)
Definition perNodeTransform (ts : list TransformerPlugin) : Run -> StageResult :=
  forEach (fun t r => forEach (perNodeOfType t) (schema (context r)) r) ts.

(** Modelled from the spec: the WholeSchemaTransform stage: the
    [transformSchema] hooks in registration order. *)
Definition wholeSchemaTransform (ts : list TransformerPlugin) : Run -> StageResult :=
  forEach (fun t => invoke {| calledTransformer := transformerName t;
                              calledHook := TransformSchema;
                              onType := None; onField := None |}
                           (transformSchema t)) ts.

(** Modelled from the spec: two entries of the same (type, field, stage,
    slot). *)
Definition sameSlot (a b : ResolverPipelineEntry) : bool :=
  inPipeline (entryType a) (entryField a) (entryStage a) b
  && Nat.eqb (entrySlot a) (entrySlot b).

(** Modelled from the spec: the first two entries that claim the same
    (type, field, stage, slot), if any (section 3). *)
Fixpoint findCollision (acc : Accumulator) : option SlotCollisionError :=
  match acc with
  | [] => None
  | e :: rest =>
      match find (sameSlot e) rest with
      | Some e' => Some {| firstContributor := contributorId e;
                           secondContributor := contributorId e' |}
      | None => findCollision rest
      end
  end.

(** Modelled from the spec: the ResolverGeneration stage: the
    [generateResolvers] hooks in registration order; it then "detects and
    fails on slot collisions". *)
Definition resolverGeneration (ts : list TransformerPlugin) (r : Run) : StageResult :=
  match forEach (fun t => invoke {| calledTransformer := transformerName t;
                                    calledHook := GenerateResolvers;
                                    onType := None; onField := None |}
                                 (generateResolvers t)) ts r with
  | inl failure => inl failure
  | inr r' =>
      match findCollision (resolvers (context r')) with
      | Some collision => inl (r', SlotCollisionDetected collision)
      | None => inr r'
      end
  end.

(** Modelled from the spec: the orchestrator as it is set up: the parser
    and printer of the document model (section 4.1), the registry, and the
    transformers in registration order. *)
Record Orchestrator := {
  parse : string -> string + SchemaDocument;
  serialize : SchemaDocument -> string;
  registry : DirectiveRegistry;
  transformers : list TransformerPlugin
}.

(** Modelled from the spec: the inputs of section 6. *)
Record TransformInput := {
  sdl : string;
  strategies : list (string * DataSourceStrategy);
  auth : AppSyncAuthConfiguration;
  placement : list (string * string)
}.

(** Modelled from the spec: the context as created for a run, with an
    empty document and no resolver entries. *)
Definition initialRun (input : TransformInput) : Run :=
  {| context := {| schema := [];
                   resolvers := [];
                   dataSourceStrategies := strategies input;
                   authConfig := auth input;
                   stackMapping := placement input;
                   assets := [] |};
     invoked := [] |}.

(** Modelled from the spec: the run once the parsed document is in its
    context. *)
Definition withSchema (doc : SchemaDocument) (r : Run) : Run :=
  {| context := {| schema := doc;
                   resolvers := resolvers (context r);
                   dataSourceStrategies := dataSourceStrategies (context r);
                   authConfig := authConfig (context r);
                   stackMapping := stackMapping (context r);
                   assets := assets (context r) |};
     invoked := invoked r |}.

(** Modelled from the spec: the output of a finished run: the immutable
    snapshot of the document as text, and the finalized resolver map. *)
Definition outputOfRun (o : Orchestrator) (r : Run) : Output :=
  {| outputSchema := serialize o (schema (context r));
     outputResolvers := finalize (context r);
     outputAssets := assets (context r) |}.

(** Modelled from the spec: the state after a stage: the next stage, or
    [Failed] with the error of the stage. *)
Definition afterStage (next : Run -> Machine) (result : StageResult) : Machine :=
  match result with
  | inl (r, e) => Failed r e
  | inr r => next r
  end.

(** Modelled from the spec: the transitions of section 4.4, one
    constructor for each. *)
Inductive step (o : Orchestrator) (input : TransformInput) : Machine -> Machine -> Prop :=
| parsed (r : Run) (doc : SchemaDocument) :
    parse o (sdl input) = inr doc ->
    step o input (Parsing r) (Validating (withSchema doc r))
| parse_failed (r : Run) (message : string) :
    parse o (sdl input) = inl message ->
    step o input (Parsing r) (Failed r (ParseError message))
| validated (r : Run) :
    validate (registry o) (schema (context r)) = [] ->
    step o input (Validating r) (PerNodeTransform r)
| validation_failed (r : Run) (errors : list ValidationError) :
    validate (registry o) (schema (context r)) = errors ->
    errors <> [] ->
    step o input (Validating r) (Failed r (ValidationErrors errors))
| per_node_done (r r' : Run) :
    perNodeTransform (transformers o) r = inr r' ->
    step o input (PerNodeTransform r) (WholeSchemaTransform r')
| per_node_failed (r r' : Run) (e : PipelineError) :
    perNodeTransform (transformers o) r = inl (r', e) ->
    step o input (PerNodeTransform r) (Failed r' e)
| whole_schema_done (r r' : Run) :
    wholeSchemaTransform (transformers o) r = inr r' ->
    step o input (WholeSchemaTransform r) (ResolverGeneration r')
| whole_schema_failed (r r' : Run) (e : PipelineError) :
    wholeSchemaTransform (transformers o) r = inl (r', e) ->
    step o input (WholeSchemaTransform r) (Failed r' e)
| resolvers_done (r r' : Run) :
    resolverGeneration (transformers o) r = inr r' ->
    step o input (ResolverGeneration r) (FinalValidation r')
| resolvers_failed (r r' : Run) (e : PipelineError) :
    resolverGeneration (transformers o) r = inl (r', e) ->
    step o input (ResolverGeneration r) (Failed r' e)
| final_validated (r : Run) :
    validate (registry o) (schema (context r)) = [] ->
    step o input (FinalValidation r) (Done r (outputOfRun o r))
| final_validation_failed (r : Run) (errors : list ValidationError) :
    validate (registry o) (schema (context r)) = errors ->
    errors <> [] ->
    step o input (FinalValidation r) (Failed r (ValidationErrors errors)).

(** Modelled from the spec: a run of the pipeline from a state to the
    state it ends in ("a run either completes to Done or transitions to
    Failed", section 5). *)
Inductive runs (o : Orchestrator) (input : TransformInput) : Machine -> Machine -> Prop :=
| runs_end (m : Machine) : terminal m = true -> runs o input m m
| runs_step (m m' final : Machine) :
    step o input m m' -> runs o input m' final -> runs o input m final.

(** Modelled from the spec: the same transitions as a function. *)
Definition next (o : Orchestrator) (input : TransformInput) (m : Machine) : Machine :=
  match m with
  | Parsing r =>
      match parse o (sdl input) with
      | inr doc => Validating (withSchema doc r)
      | inl message => Failed r (ParseError message)
      end
  | Validating r =>
      match validate (registry o) (schema (context r)) with
      | [] => PerNodeTransform r
      | errors => Failed r (ValidationErrors errors)
      end
  | PerNodeTransform r =>
      afterStage WholeSchemaTransform (perNodeTransform (transformers o) r)
  | WholeSchemaTransform r =>
      afterStage ResolverGeneration (wholeSchemaTransform (transformers o) r)
  | ResolverGeneration r =>
      afterStage FinalValidation (resolverGeneration (transformers o) r)
  | FinalValidation r =>
      match validate (registry o) (schema (context r)) with
      | [] => Done r (outputOfRun o r)
      | errors => Failed r (ValidationErrors errors)
      end
  | Done r out => Done r out
  | Failed r e => Failed r e
  end.

(** Modelled from the spec: the whole pipeline: the six stages from
    [Parsing] on. *)
Definition transform (o : Orchestrator) (input : TransformInput) : Machine :=
  let go := next o input in
  go (go (go (go (go (go (Parsing (initialRun input))))))).

(** Modelled from the spec: how many stages a state is from the end of
    the pipeline. *)
Definition stagesLeft (m : Machine) : nat :=
  match m with
  | Parsing _ => 6 | Validating _ => 5 | PerNodeTransform _ => 4
  | WholeSchemaTransform _ => 3 | ResolverGeneration _ => 2
  | FinalValidation _ => 1 | Done _ _ | Failed _ _ => 0
  end.

(** Modelled from the spec: whether the document uses a directive name
    that the registry does not hold. *)
Definition usesUnregistered (registry : DirectiveRegistry) (doc : SchemaDocument)
  (directive : string) : Prop :=
  lookupSpec registry directive = None
  /\ exists o, In o (occurrences doc) /\ directiveName (used o) = directive.

End Pipeline.


(* ================================================================= *)
(** ** A small pipeline to run the orchestrator on *)

Module PipelineDemo.
Import TransformerCore Pipeline.

Definition postFields : list FieldDefinition :=
  [ {| fieldName := "id"; fieldType := NonNullType (NamedType "ID");
       fieldDirectives := []; defaultValue := None |};
    {| fieldName := "title"; fieldType := NonNullType (NamedType "String");
       fieldDirectives := []; defaultValue := None |} ].

(** [type Post @model { id: ID! title: String! }], and the same type
    with the directive name misspelt. *)
Definition postSdl : string := "type Post @model { id: ID! title: String! }".

Definition misspeltSdl : string := "type Post @modle { id: ID! title: String! }".

Definition postType (directive : string) : TypeDefinition :=
  {| typeName := "Post"; typeKind := ObjectKind; fields := postFields;
     typeDirectives := [{| directiveName := directive; arguments := [] |}] |}.

Definition queryType : TypeDefinition :=
  {| typeName := "Query"; typeKind := ObjectKind;
     fields := [ {| fieldName := "getPost"; fieldType := NamedType "Post";
                    fieldDirectives := []; defaultValue := None |} ];
     typeDirectives := [] |}.

Definition modelSpec : DirectiveSpec :=
  {| specName := "model"; specArguments := []; specLocations := [OBJECT] |}.

Definition setSchema (doc : SchemaDocument) (c : TransformerContext) : TransformerContext :=
  {| schema := doc; resolvers := resolvers c;
     dataSourceStrategies := dataSourceStrategies c; authConfig := authConfig c;
     stackMapping := stackMapping c; assets := assets c |}.

Definition setResolvers (acc : Accumulator) (c : TransformerContext) : TransformerContext :=
  {| schema := schema c; resolvers := acc;
     dataSourceStrategies := dataSourceStrategies c; authConfig := authConfig c;
     stackMapping := stackMapping c; assets := assets c |}.

(** A transformer that owns [@model]: it adds the [Query] type and
    contributes one entry to [Query.getPost.auth]. *)
Definition demoTransformer (id : string) : TransformerPlugin :=
  {| transformerName := id;
     ownedDirectives := ["model"];
     onTypeDefinition := fun _ _ c => inr c;
     onFieldDefinition := fun _ _ _ c => inr c;
     transformSchema := fun c =>
       if mem "Query" (map typeName (schema c)) then inr c
       else inr (setSchema (schema c ++ [queryType]) c);
     generateResolvers := fun c =>
       match addPipelineEntry "Query" "getPost" "auth" id "## auth" (resolvers c) with
       | inl e => inl (SlotCollision e)
       | inr (_, acc) => inr (setResolvers acc c)
       end |}.

Definition demoOrchestrator : Orchestrator :=
  {| parse := fun text =>
       if String.eqb text postSdl then inr [postType "model"]
       else if String.eqb text misspeltSdl then inr [postType "modle"]
       else inl "Syntax Error";
     serialize := fun doc => String.concat " " (map typeName doc);
     registry := register predictionsSpec (register modelSpec []);
     transformers := [demoTransformer "model"; demoTransformer "auth"] |}.

Definition demoInput (text : string) : TransformInput :=
  {| sdl := text; strategies := [];
     auth := {| defaultAuthentication := API_KEY;
                additionalAuthenticationProviders := [] |};
     placement := [] |}.

End PipelineDemo.

(* ================================================================= *)
(** ** The searchable domain and its role

    [createSearchableDomain] and [createSearchableDomainRole], the second
    part of [amplify-graphql-searchable-transformer/src/constants.ts]. *)

Module SearchableDomain.

(** [CfnParameter], by the two views of its value that are read here. *)
Record CfnParameter := {
  valueAsString : string;
  valueAsNumber : Z
}.

(** [Map<string, CfnParameter>], in insertion order. *)
Definition ParameterMap : Type := list (string * CfnParameter).

(** [parameterMap.get(key)] *)
Definition mapGet (parameterMap : ParameterMap) (key : string) : option CfnParameter :=
  option_map snd (find (fun kv => String.eqb (fst kv) key) parameterMap).

(** The names that [ResourceConstants] of [graphql-transformer-common]
    gives; that package is not in the sources, so they are taken as they
    come. *)
Record ResourceConstants := {
  OpenSearchEBSVolumeGB : string;            (* PARAMETERS *)
  OpenSearchInstanceType : string;
  OpenSearchInstanceCount : string;
  OpenSearchAccessIAMRoleName : string;
  OpenSearchDomainLogicalID : string;        (* RESOURCES *)
  OpenSearchAccessIAMRoleLogicalID : string;
  HasEnvironmentParameter : string           (* CONDITIONS *)
}.

(** The values CloudFormation computes at deployment: [Fn.ref] and
    [Fn.conditionIf] over literals. *)
Inductive CfnValue :=
| Literal (text : string)
| FnRef (logicalName : string)
| FnConditionIf (conditionId : string) (valueIfTrue valueIfFalse : CfnValue).

Inductive EbsDeviceVolumeType := STANDARD | IO1 | GP2 | GP3 | ST1 | SC1.

Inductive RemovalPolicy := DESTROY | RETAIN | SNAPSHOT.

Record EbsOptions := {
  enabled : bool;
  volumeType : EbsDeviceVolumeType;
  volumeSize : option Z
}.

Record DomainProps := {
  version : string;
  ebs : EbsOptions;
  zoneAwarenessEnabled : bool;
  domainName : CfnValue;
  removalPolicy : RemovalPolicy
}.

Record ElasticsearchClusterConfig := {
  instanceCount : option Z;
  instanceType : option string
}.

(** A [Domain] construct: its reference, and the cluster configuration of
    its default child, the [CfnDomain]. *)
Record Domain := {
  domainRef : GraphqlApi.Ref;
  elasticsearchClusterConfig : ElasticsearchClusterConfig
}.

Record RoleProps := {
  assumedBy : string;        (* the service of the [ServicePrincipal] *)
  roleName : string
}.

Section Create.

Variable RC : ResourceConstants.

(** The role construct, as the library makes it. *)
Variable Role : Type.

(** The constructors of the library, [new Domain(scope, id, props)] and
    [new Role(scope, id, props)], and the helper of the context,
    [context.resourceHelper.generateIAMRoleName]: each may throw, and the
    constructors change the construct tree. *)
Variable newDomain :
  GraphqlApi.Ref -> string -> DomainProps -> GraphqlApi.Heap ->
  GraphqlApi.Result Domain * GraphqlApi.Heap.
Variable newRole :
  GraphqlApi.Ref -> string -> RoleProps -> GraphqlApi.Heap ->
  GraphqlApi.Result Role * GraphqlApi.Heap.
Variable generateIAMRoleName : string -> GraphqlApi.Result string.

(** The properties [createSearchableDomain] gives to [new Domain]. *)
Definition domainProps (parameterMap : ParameterMap) (apiId : string) : DomainProps :=
  {| version := "7.10";
     ebs := {| enabled := true;
               volumeType := GP2;
               volumeSize := option_map valueAsNumber
                               (mapGet parameterMap (OpenSearchEBSVolumeGB RC)) |};
     zoneAwarenessEnabled := false;
     domainName := FnConditionIf (HasEnvironmentParameter RC)
                                 (FnRef "AWS::NoValue")
                                 (Literal ("d" +:+ apiId));
     removalPolicy := DESTROY |}.

(** [createSearchableDomain(stack, parameterMap, apiId)] *)
Definition createSearchableDomain (stack : GraphqlApi.Ref)
  (parameterMap : ParameterMap) (apiId : string) (h : GraphqlApi.Heap)
  : GraphqlApi.Result Domain * GraphqlApi.Heap :=
  match newDomain stack (OpenSearchDomainLogicalID RC)
                  (domainProps parameterMap apiId) h with
  | (inl e, h') => (inl e, h')
  | (inr domain, h') =>
      (inr {| domainRef := domainRef domain;
              elasticsearchClusterConfig :=
                {| instanceCount :=
                     option_map valueAsNumber
                       (mapGet parameterMap (OpenSearchInstanceCount RC));
                   instanceType :=
                     option_map valueAsString
                       (mapGet parameterMap (OpenSearchInstanceType RC)) |} |},
       h')
  end.

(** [createSearchableDomainRole(context, stack, parameterMap)];
    [!roleName] holds for [undefined] and for the empty string. *)
Definition createSearchableDomainRole (stack : GraphqlApi.Ref)
  (parameterMap : ParameterMap) (h : GraphqlApi.Heap)
  : GraphqlApi.Result Role * GraphqlApi.Heap :=
  let roleName := option_map valueAsString
                    (mapGet parameterMap (OpenSearchAccessIAMRoleName RC)) in
  match GraphqlApi.truthy roleName with
  | None =>
      (inl (GraphqlApi.Error ("Could find role name parameter for "
                              +:+ OpenSearchAccessIAMRoleName RC)), h)
  | Some name =>
      match generateIAMRoleName name with
      | inl e => (inl e, h)
      | inr generated =>
          newRole stack (OpenSearchAccessIAMRoleLogicalID RC)
                  {| assumedBy := "appsync.amazonaws.com";
                     roleName := generated |} h
      end
  end.

End Create.

(** *** A small setting to run the two functions in *)

Definition demoConstants : ResourceConstants :=
  {| OpenSearchEBSVolumeGB := "OpenSearchEBSVolumeGB";
     OpenSearchInstanceType := "OpenSearchInstanceType";
     OpenSearchInstanceCount := "OpenSearchInstanceCount";
     OpenSearchAccessIAMRoleName := "OpenSearchAccessIAMRoleName";
     OpenSearchDomainLogicalID := "OpenSearchDomain";
     OpenSearchAccessIAMRoleLogicalID := "OpenSearchAccessIAMRole";
     HasEnvironmentParameter := "HasEnvironmentParameter" |}.

Definition demoHeap : GraphqlApi.Heap :=
  {| GraphqlApi.tree := GraphqlApi.MkConstruct 0 "Stack" GraphqlApi.KStack [];
     GraphqlApi.nextRef := 1 |}.

(** A library constructor that adds one construct to the scope. *)
Definition demoNew {A : Type} (make : GraphqlApi.Ref -> A)
  (scope : GraphqlApi.Ref) (id : string) (h : GraphqlApi.Heap)
  : GraphqlApi.Result A * GraphqlApi.Heap :=
  let r := GraphqlApi.nextRef h in
  (inr (make r),
   {| GraphqlApi.tree :=
        GraphqlApi.addChild scope (GraphqlApi.MkConstruct r id GraphqlApi.KOther [])
                            (GraphqlApi.tree h);
      GraphqlApi.nextRef := S r |}).

Definition demoNewDomain (scope : GraphqlApi.Ref) (id : string) (props : DomainProps)
  : GraphqlApi.Heap -> GraphqlApi.Result Domain * GraphqlApi.Heap :=
  demoNew (fun r => {| domainRef := r;
                       elasticsearchClusterConfig :=
                         {| instanceCount := Some 1%Z; instanceType := None |} |})
          scope id.

Definition demoNewRole (scope : GraphqlApi.Ref) (id : string) (props : RoleProps)
  : GraphqlApi.Heap -> GraphqlApi.Result RoleProps * GraphqlApi.Heap :=
  demoNew (fun _ => props) scope id.

Definition demoGenerateIAMRoleName (name : string) : GraphqlApi.Result string :=
  inr (name +:+ "-dev").

End SearchableDomain.

(* ================================================================= *)
(** ** More settings to run the [AmplifyGraphqlApi] constructor in *)

Module GraphqlApiDemo.
Import GraphqlApi.

#[local] Existing Instance demoTypes.

(** The collaborators of [demoCollaborators], except that
    [validateFunctionSlots] rejects the slots. *)
Definition rejectingCollaborators : @Collaborators demoTypes :=
  let base := demoCollaborators None in
  {| addAmplifyMetadataToStackDescription :=
       @addAmplifyMetadataToStackDescription _ base;
     convertAuthorizationModesToTransformerAuthConfig :=
       @convertAuthorizationModesToTransformerAuthConfig _ base;
     validateFunctionSlots := fun _ => inl (Error "Invalid function slot");
     separateSlots := @separateSlots _ base;
     parseUserDefinedSlots := @parseUserDefinedSlots _ base;
     convertToResolverConfig := @convertToResolverConfig _ base;
     defaultTranslationBehavior := @defaultTranslationBehavior _ base;
     tryGetContext := @tryGetContext _ base;
     executeTransform := @executeTransform _ base;
     newCodegenAssets := @newCodegenAssets _ base;
     modelSchemaS3Uri := @modelSchemaS3Uri _ base;
     getGeneratedResources := @getGeneratedResources _ base;
     getGeneratedFunctionSlots := @getGeneratedFunctionSlots _ base;
     getAdditionalAuthenticationTypes := @getAdditionalAuthenticationTypes _ base;
     handlerType := @handlerType _ base;
     stackRegion := @stackRegion _ base;
     addBackendOutputEntry := @addBackendOutputEntry _ base |}.

(** The construction of a first [AmplifyGraphqlApi] in the stack of
    [demoWorld], and the construct it returns. *)
Definition demoRun : Result AmplifyGraphqlApi * World :=
  AmplifyGraphqlApi_constructor (C := demoCollaborators None)
    1 "api" demoProps (demoWorld [] 2).

Definition demoApi : AmplifyGraphqlApi :=
  {| self := 2;
     resources := demoResources;
     codegenAssets := tt;
     generatedFunctionSlots := [];
     graphqlUrl := "url";
     realtimeUrl := "realtime";
     apiKey := None;
     apiId := "id";
     api_conflictResolution := None |}.

End GraphqlApiDemo.

(* ================================================================= *)
(** * Part II: properties *)

Module JsStringFacts.
Import JsString.

Lemma stripSuffix_sound (suffix s p : string) :
  stripSuffix suffix s = Some p -> s = p +:+ suffix.
Proof.
  revert p; induction s as [|c s IH]; intros p.
  - destruct suffix; simpl; intros H; [|discriminate H].
    now injection H as <-.
  - cbn [stripSuffix].
    destruct (String.eqb_spec (String c s) suffix) as [E|_].
    + intros H. injection H as <-. exact E.
    + destruct (stripSuffix suffix s) as [q|]; intros H; [|discriminate H].
      injection H as <-. simpl. now rewrite (IH q eq_refl).
Qed.

Lemma drop_app_length (a b : string) : drop (String.length a) (a +:+ b) = b.
Proof. induction a; simpl; auto. Qed.

Lemma prefix_app (a b : string) : prefix a (a +:+ b) = true.
Proof.
  induction a as [|c a IH]; simpl.
  - now destruct b.
  - destruct (ascii_dec c c); [exact IH | congruence].
Qed.

(** Replacing a pattern that starts the string. *)
Lemma replace_head (pattern replacement rest : string) :
  replace pattern replacement (pattern +:+ rest) = replacement +:+ rest.
Proof.
  destruct pattern as [|c pattern]; simpl.
  - now destruct rest.
  - destruct (ascii_dec c c); [|congruence].
    now rewrite prefix_app, drop_app_length.
Qed.

End JsStringFacts.

(* ================================================================= *)
(** ** The allowable searchable instance types *)

Module SearchableFacts.
Import JsString JsStringFacts Searchable.

Lemma suffixReplaced_sound (type : string) :
  suffixReplaced type = true ->
  exists p, type = p +:+ ".elasticsearch"
            /\ replace "elasticsearch" "search" type = p +:+ ".search".
Proof.
  unfold suffixReplaced.
  destruct (stripSuffix ".elasticsearch" type) as [p|] eqn:E; [|discriminate].
  intros H. exists p. split.
  - now apply stripSuffix_sound.
  - now apply String.eqb_eq.
Qed.

Lemma base_all_suffixReplaced :
  forallb suffixReplaced elasticsearch_instance_types = true.
Proof. vm_compute. reflexivity. Qed.

(** C10. [ALLOWABLE_SEARCHABLE_INSTANCE_TYPES] is the base list followed by
    the base list with, in every element, [elasticsearch] replaced by
    [search]; so it is twice as long as the base list, every base element
    ends in [.elasticsearch], and the list holds it together with the
    same name ending in [.search]. *)
Theorem allowable_searchable_instance_types_spec :
  ALLOWABLE_SEARCHABLE_INSTANCE_TYPES
  = elasticsearch_instance_types
    ++ map (replace "elasticsearch" "search") elasticsearch_instance_types
  /\ length ALLOWABLE_SEARCHABLE_INSTANCE_TYPES
     = 2 * length elasticsearch_instance_types
  /\ forall type, In type elasticsearch_instance_types ->
       exists p, type = p +:+ ".elasticsearch"
         /\ replace "elasticsearch" "search" type = p +:+ ".search"
         /\ In (p +:+ ".elasticsearch") ALLOWABLE_SEARCHABLE_INSTANCE_TYPES
         /\ In (p +:+ ".search") ALLOWABLE_SEARCHABLE_INSTANCE_TYPES.
Proof.
  split; [reflexivity|]. split.
  - unfold ALLOWABLE_SEARCHABLE_INSTANCE_TYPES.
    rewrite length_app, length_map. lia.
  - intros type Hin.
    pose proof base_all_suffixReplaced as Hall.
    rewrite forallb_forall in Hall.
    destruct (suffixReplaced_sound type (Hall type Hin)) as (p & Hp & Hr).
    exists p. repeat split; trivial.
    + rewrite <- Hp. unfold ALLOWABLE_SEARCHABLE_INSTANCE_TYPES.
      apply in_or_app. now left.
    + rewrite <- Hr. unfold ALLOWABLE_SEARCHABLE_INSTANCE_TYPES.
      apply in_or_app. right. now apply in_map.
Qed.

(** The two halves, read off at the first base element. *)
Example allowable_first :
  nth_error ALLOWABLE_SEARCHABLE_INSTANCE_TYPES 0 = Some "t2.small.elasticsearch"
  /\ nth_error ALLOWABLE_SEARCHABLE_INSTANCE_TYPES 95 = Some "t2.small.search"
  /\ length ALLOWABLE_SEARCHABLE_INSTANCE_TYPES = 190.
Proof. repeat split. Qed.

Lemma allowable_searchable_instance_types_witness :
  In "t2.medium.elasticsearch" elasticsearch_instance_types
  /\ exists p, "t2.medium.elasticsearch" = p +:+ ".elasticsearch"
       /\ replace "elasticsearch" "search" "t2.medium.elasticsearch"
          = p +:+ ".search"
       /\ In (p +:+ ".elasticsearch") ALLOWABLE_SEARCHABLE_INSTANCE_TYPES
       /\ In (p +:+ ".search") ALLOWABLE_SEARCHABLE_INSTANCE_TYPES.
Proof.
  assert (Hin : In "t2.medium.elasticsearch" elasticsearch_instance_types)
    by (right; left; reflexivity).
  split; [exact Hin|].
  exact (proj2 (proj2 allowable_searchable_instance_types_spec) _ Hin).
Defined.

End SearchableFacts.

(* ================================================================= *)
(** ** The guards of the [AmplifyGraphqlApi] constructor *)

Module GraphqlApiFacts.
Import GraphqlApi.

(** Induction on a construct tree, with the hypothesis on every child. *)
Lemma Construct_tree_ind (P : Construct -> Prop)
  (step : forall r i k cs, Forall P cs -> P (MkConstruct r i k cs)) :
  forall c, P c.
Proof.
  fix IH 1. intros [r i k cs]. apply step.
  induction cs as [|c cs IHcs]; constructor; [apply IH | exact IHcs].
Qed.

Section Tree.

Lemma firstSome_None {A B : Type} (f : A -> option B) (l : list A) :
  firstSome f l = None <-> forall x, In x l -> f x = None.
Proof.
  induction l as [|a l IH]; simpl.
  - split; [intros _ x [] | reflexivity].
  - destruct (f a) eqn:E.
    + split; [discriminate|]. intros H. rewrite (H a) in E by now left.
      discriminate.
    + rewrite IH. split.
      * intros H x [<-|Hx]; auto.
      * intros H x Hx. apply H. now right.
Qed.

Lemma firstSome_Some {A B : Type} (f : A -> option B) (l : list A) (b : B) :
  firstSome f l = Some b ->
  exists pre x post,
    l = pre ++ x :: post /\ f x = Some b /\ forall y, In y pre -> f y = None.
Proof.
  induction l as [|a l IH]; simpl; [discriminate|].
  destruct (f a) eqn:E.
  - intros [= <-]. exists [], a, l. repeat split; trivial. intros y [].
  - intros H. destruct (IH H) as (pre & x & post & -> & Hx & Hpre).
    exists (a :: pre), x, post. repeat split; trivial.
    intros y [<-|Hy]; auto.
Qed.

Lemma firstSome_app {A B : Type} (f : A -> option B) (pre l : list A) :
  (forall y, In y pre -> f y = None) ->
  firstSome f (pre ++ l) = firstSome f l.
Proof.
  induction pre as [|a pre IH]; intros H; simpl; [reflexivity|].
  rewrite (H a) by now left. apply IH. intros y Hy. apply H. now right.
Qed.

(** A reference that the tree does not hold has no scopes in it. *)
Lemma scopes_absent (target : Ref) (t : Construct) :
  ~ In target (refs t) -> scopes target t = None.
Proof.
  induction t as [r i k cs IH] using Construct_tree_ind. intros Hnot.
  cbn [scopes]. unfold refs in Hnot. cbn [nodes map] in Hnot.
  destruct (Nat.eqb_spec r target) as [->|Hne]; [elim Hnot; now left|].
  assert (Hcs : firstSome (scopes target) cs = None).
  { apply firstSome_None. intros x Hx.
    rewrite Forall_forall in IH. apply IH; trivial.
    intros Hin. apply Hnot. right.
    unfold refs in Hin. apply in_map_iff in Hin as (n & <- & Hn).
    apply in_map, in_flat_map. eauto. }
  now rewrite Hcs.
Qed.

Lemma scopes_present (target : Ref) (t : Construct) (path : list Construct) :
  scopes target t = Some path -> In target (refs t).
Proof.
  intros H. destruct (in_dec Nat.eq_dec target (refs t)) as [|Hnot]; trivial.
  rewrite (scopes_absent _ _ Hnot) in H. discriminate.
Qed.

(** Adding a child to a scope that the tree does not hold changes
    nothing. *)
Lemma addChild_absent (scope : Ref) (c t : Construct) :
  ~ In scope (refs t) -> addChild scope c t = t.
Proof.
  induction t as [r i k cs IH] using Construct_tree_ind. intros Hnot.
  cbn [addChild]. unfold refs in Hnot. cbn [nodes map] in Hnot.
  destruct (Nat.eqb_spec r scope) as [->|Hne]; [elim Hnot; now left|].
  f_equal. rewrite <- (map_id cs) at 2. apply map_ext_in. intros x Hx.
  rewrite Forall_forall in IH. apply IH; trivial.
  intros Hin. apply Hnot. right.
  unfold refs in Hin. apply in_map_iff in Hin as (n & <- & Hn).
  apply in_map, in_flat_map. eauto.
Qed.

Lemma refs_children (cs : list Construct) (x : Construct) (target : Ref) :
  In x cs -> In target (refs x) -> In target (map ref (flat_map nodes cs)).
Proof.
  intros Hx Hin. unfold refs in Hin.
  apply in_map_iff in Hin as (n & <- & Hn).
  apply (in_map ref _ n), in_flat_map. eauto.
Qed.

Lemma refs_child (r : Ref) (i : string) (k : ConstructKind) (cs : list Construct)
  (x : Construct) (target : Ref) :
  In x cs -> In target (refs x) -> In target (refs (MkConstruct r i k cs)).
Proof.
  intros Hx Hin. unfold refs. cbn [nodes map]. right.
  eapply refs_children; eauto.
Qed.

Lemma NoDup_refs_child (r : Ref) (i : string) (k : ConstructKind)
  (pre post : list Construct) (x : Construct) :
  NoDup (refs (MkConstruct r i k (pre ++ x :: post))) -> NoDup (refs x).
Proof.
  unfold refs. cbn [nodes map]. intros H. apply NoDup_cons_iff in H as [_ H].
  rewrite flat_map_app, map_app in H. apply NoDup_app_remove_l in H.
  cbn [flat_map] in H. rewrite map_app in H. now apply NoDup_app_remove_r in H.
Qed.

Lemma scopes_found (target : Ref) (t : Construct) :
  In target (refs t) -> exists path, scopes target t = Some path.
Proof.
  intros Hin. destruct (scopes target t) as [path|] eqn:E; [eauto|].
  exfalso. revert Hin E.
  induction t as [r i k cs IH] using Construct_tree_ind. intros Hin.
  cbn [scopes]. unfold refs in Hin. cbn [nodes map] in Hin.
  destruct (Nat.eqb_spec r target) as [->|Hne]; [discriminate|].
  destruct Hin as [Hr|Hin]; [contradiction|].
  apply in_map_iff in Hin as (n & <- & Hn).
  apply in_flat_map in Hn as (x & Hx & Hn).
  destruct (firstSome (scopes (ref n)) cs) eqn:E; [discriminate|]. intros _.
  rewrite firstSome_None in E. rewrite Forall_forall in IH.
  apply (IH x Hx); [|now apply E]. unfold refs. now apply in_map.
Qed.

(** The scopes of a new construct: those of the scope it was added to,
    as they are after the addition, and the construct itself. *)
Lemma scopes_addChild (scope this : Ref) (id : string) (k : ConstructKind)
  (t : Construct) :
  forall path,
    NoDup (refs t) -> ~ In this (refs t) ->
    scopes scope t = Some path ->
    scopes this (addChild scope (MkConstruct this id k []) t)
    = Some (map (addChild scope (MkConstruct this id k [])) path
            ++ [MkConstruct this id k []]).
Proof.
  set (c := MkConstruct this id k []).
  assert (Hc : scopes this c = Some [c]) by (cbn; now rewrite Nat.eqb_refl).
  induction t as [r i k0 cs IH] using Construct_tree_ind.
  intros path Hnd Hfresh Hpath.
  assert (Hr : Nat.eqb r this = false).
  { apply Nat.eqb_neq. intros ->. apply Hfresh. now left. }
  assert (Hkeep : forall y, In y cs -> scopes this y = None).
  { intros y Hy. apply scopes_absent. intros Hin. apply Hfresh.
    eapply refs_child; eauto. }
  cbn [scopes] in Hpath. cbn [addChild].
  destruct (Nat.eqb_spec r scope) as [->|Hne].
  - injection Hpath as <-. cbn [scopes]. rewrite Hr.
    assert (Hsame : map (addChild scope c) cs = cs).
    { rewrite <- (map_id cs) at 2. apply map_ext_in. intros y Hy.
      apply addChild_absent. intros Hin.
      unfold refs in Hnd. cbn [nodes map] in Hnd.
      apply NoDup_cons_iff in Hnd as [Hnot _]. apply Hnot.
      eapply refs_children; eauto. }
    rewrite Hsame, (firstSome_app _ _ _ Hkeep). cbn [firstSome]. rewrite Hc.
    cbn [map addChild]. rewrite Nat.eqb_refl, Hsame. reflexivity.
  - destruct (firstSome (scopes scope) cs) as [p|] eqn:E; [|discriminate].
    injection Hpath as <-.
    destruct (firstSome_Some _ _ _ E) as (pre & x & post & -> & Hx & Hpre).
    cbn [scopes]. rewrite Hr, map_app. cbn [map].
    assert (Hpre' : map (addChild scope c) pre = pre).
    { rewrite <- (map_id pre) at 2. apply map_ext_in. intros y Hy.
      apply addChild_absent. intros Hin.
      destruct (scopes_found _ _ Hin) as (q & Hq).
      rewrite (Hpre y Hy) in Hq. discriminate. }
    rewrite Hpre', firstSome_app
      by (intros y Hy; apply Hkeep, in_or_app; now left).
    cbn [firstSome].
    rewrite Forall_forall in IH.
    rewrite (IH x (in_elt x pre post) p).
    + cbn [map addChild]. apply Nat.eqb_neq in Hne. rewrite Hne.
      rewrite map_app. cbn [map]. rewrite Hpre'. reflexivity.
    + eapply NoDup_refs_child; eauto.
    + intros Hin. apply Hfresh. eapply refs_child; eauto. apply in_elt.
    + exact Hx.
Qed.

(** Adding a child keeps the constructs there were, with their
    references and kinds. *)
Lemma addChild_keeps (scope : Ref) (c t n : Construct) :
  In n (nodes t) ->
  exists n', In n' (nodes (addChild scope c t))
             /\ ref n' = ref n /\ kind n' = kind n.
Proof.
  revert n. induction t as [r i k cs IH] using Construct_tree_ind.
  intros n Hn. cbn [nodes] in Hn. destruct Hn as [<-|Hn].
  - exists (addChild scope c (MkConstruct r i k cs)).
    split; [|split; reflexivity]. cbn [addChild nodes]. now left.
  - apply in_flat_map in Hn as (x & Hx & Hn).
    rewrite Forall_forall in IH.
    destruct (IH x Hx n Hn) as (n' & Hn' & Hr & Hk).
    exists n'. split; [|now split].
    cbn [addChild nodes]. right. apply in_flat_map.
    exists (addChild scope c x). split; [|exact Hn'].
    destruct (Nat.eqb r scope); [apply in_or_app; left|]; now apply in_map.
Qed.

Lemma isStack_addChild (scope : Ref) (c t : Construct) :
  isStack (addChild scope c t) = isStack t.
Proof. now destruct t. Qed.

Lemma addChild_nodes_inv (scope : Ref) (c t n' : Construct) :
  children c = [] ->
  In n' (nodes (addChild scope c t)) ->
  n' = c \/ exists n, In n (nodes t) /\ ref n' = ref n /\ kind n' = kind n.
Proof.
  intros Hc. revert n'. induction t as [r i k cs IH] using Construct_tree_ind.
  intros n' Hn'. cbn [addChild nodes] in Hn'. destruct Hn' as [<-|Hn'].
  - right. exists (MkConstruct r i k cs). split; [now left | now split].
  - apply in_flat_map in Hn' as (x' & Hx' & Hn').
    assert (Hcase : x' = c \/ exists x, In x cs /\ x' = addChild scope c x).
    { destruct (Nat.eqb r scope).
      - apply in_app_or in Hx' as [Hx'|[<-|[]]]; [|now left].
        apply in_map_iff in Hx' as (x & <- & Hx). right; eauto.
      - apply in_map_iff in Hx' as (x & <- & Hx). right; eauto. }
    destruct Hcase as [->|(x & Hx & ->)].
    + left. destruct c as [rc ic kc csc]. cbn in Hc. subst csc.
      cbn in Hn'. now destruct Hn'.
    + rewrite Forall_forall in IH.
      destruct (IH x Hx n' Hn') as [->|(n & Hn & Hr & Hk)]; [now left|].
      right. exists n. split; [|now split].
      cbn [nodes]. right. apply in_flat_map. eauto.
Qed.

Lemma filter_map_commute {A B : Type} (p : B -> bool) (f : A -> B) (l : list A) :
  filter p (map f l) = map f (filter (fun a => p (f a)) l).
Proof.
  induction l as [|a l IH]; simpl; [reflexivity|].
  destruct (p (f a)); simpl; now rewrite IH.
Qed.

(** The constructs among the scopes of a construct lie in the tree, and
    so do the constructs below them. *)
Lemma scopes_subtree (target : Ref) (t : Construct) :
  forall path s n,
    scopes target t = Some path -> In s path -> In n (nodes s) ->
    In (ref n) (refs t).
Proof.
  induction t as [r i k cs IH] using Construct_tree_ind.
  intros path s n Hpath Hs Hn. cbn [scopes] in Hpath.
  destruct (Nat.eqb r target).
  - injection Hpath as <-. destruct Hs as [<-|[]].
    unfold refs. now apply in_map.
  - destruct (firstSome (scopes target) cs) as [p|] eqn:E; [|discriminate].
    injection Hpath as <-. destruct Hs as [<-|Hs].
    + unfold refs. now apply in_map.
    + destruct (firstSome_Some _ _ _ E) as (pre & x & post & -> & Hx & _).
      rewrite Forall_forall in IH.
      eapply refs_child; [apply in_elt|].
      eapply (IH x (in_elt x pre post)); eauto.
Qed.

Lemma wellFormed_fresh (h : Heap) : wellFormed h -> ~ In (nextRef h) (refs (tree h)).
Proof.
  intros [_ Hlt] Hin. rewrite Forall_forall in Hlt.
  specialize (Hlt _ Hin). lia.
Qed.

End Tree.

Section Walk.
Context {S : Type} (processNode : Construct -> S -> S).

Lemma fold_left_flat_map (f : Construct -> S -> S) (g : Construct -> list Construct)
  (cs : list Construct) :
  Forall (fun c => forall s, f c s = fold_left (fun s' n => processNode n s') (g c) s) cs ->
  forall s,
    fold_left (fun s' c => f c s') cs s
    = fold_left (fun s' n => processNode n s') (flat_map g cs) s.
Proof.
  induction 1 as [|c cs Hc _ IH]; intros s; simpl; [reflexivity|].
  now rewrite fold_left_app, <- Hc, IH.
Qed.

(** The walk calls [processNode] on the constructs of the tree, each
    before its children. *)
Lemma walkAndProcessNodes_nodes (c : Construct) :
  forall s, walkAndProcessNodes c processNode s
            = fold_left (fun s' n => processNode n s') (nodes c) s.
Proof.
  induction c as [r i k cs IH] using Construct_tree_ind. intros s.
  cbn [walkAndProcessNodes nodes fold_left].
  now apply (fold_left_flat_map (fun c => walkAndProcessNodes c processNode)).
Qed.

End Walk.

Lemma fold_flag (found : Construct -> bool) (l : list Construct) (b : bool) :
  fold_left (fun acc n => if found n then true else acc) l b
  = b || existsb found l.
Proof.
  revert b; induction l as [|n l IH]; intros b; simpl.
  - now rewrite orb_false_r.
  - rewrite IH. destruct (found n), b; reflexivity.
Qed.

Section Guards.
Context {T : Types} {C : Collaborators}.

(** What the guard does, given the root stack it finds. *)
Lemma validateNoOtherAmplifyGraphqlApiInStack_spec (this : Ref) (w : World) :
  validateNoOtherAmplifyGraphqlApiInStack this w
  = match getStackForScope this true w with
    | (inl e, w') => (inl e, w')
    | (inr rootStack, w') =>
        if existsb (otherAmplifyGraphqlApi this) (nodes rootStack)
        then (inl onlyOneError, w')
        else (inr tt, w')
    end.
Proof.
  unfold validateNoOtherAmplifyGraphqlApiInStack, bind.
  destruct (getStackForScope this true w) as [[e|rootStack] w']; [reflexivity|].
  rewrite walkAndProcessNodes_nodes.
  rewrite (fold_flag (otherAmplifyGraphqlApi this)). simpl.
  now destruct (existsb _ _).
Qed.

Lemma getStackForScope_world (scope : Ref) (b : bool) (w w' : World) r :
  getStackForScope scope b w = (r, w') -> w' = w.
Proof.
  unfold getStackForScope.
  destruct (if b then _ else _); now intros [= _ <-].
Qed.

Lemma Construct_constructor_run (k : ConstructKind) (scope : Ref) (id : string)
  (w : World) :
  Construct_constructor k scope id w
  = (inr (nextRef (heap w)),
     snd (Construct_constructor k scope id w)).
Proof. reflexivity. Qed.

Lemma Construct_constructor_trace (k : ConstructKind) (scope : Ref) (id : string)
  (w : World) :
  trace (snd (Construct_constructor k scope id w)) = trace w.
Proof. reflexivity. Qed.

Lemma otherAmplifyGraphqlApi_exists (this : Ref) (l : list Construct) :
  existsb (otherAmplifyGraphqlApi this) l = true
  <-> exists n, In n l /\ isAmplifyGraphqlApi n = true /\ ref n <> this.
Proof.
  rewrite existsb_exists. unfold otherAmplifyGraphqlApi.
  split; intros (n & Hin & H); exists n; split; trivial.
  - apply andb_true_iff in H as [Hk Hr]. split; trivial.
    apply negb_true_iff, Nat.eqb_neq in Hr. congruence.
  - destruct H as [-> Hr]. simpl.
    apply negb_true_iff, Nat.eqb_neq. congruence.
Qed.

Lemma otherAmplifyGraphqlApi_none (this : Ref) (l : list Construct) :
  existsb (otherAmplifyGraphqlApi this) l = false
  <-> forall n, In n l -> isAmplifyGraphqlApi n = true -> ref n = this.
Proof.
  split.
  - intros H n Hin Hk.
    destruct (Nat.eq_dec (ref n) this) as [|Hne]; trivial.
    assert (existsb (otherAmplifyGraphqlApi this) l = true)
      by (apply otherAmplifyGraphqlApi_exists; eauto).
    congruence.
  - intros H. destruct (existsb _ l) eqn:E; trivial.
    apply otherAmplifyGraphqlApi_exists in E as (n & Hin & Hk & Hne).
    now elim Hne; apply H.
Qed.

(** Running the monad: one step of [bind] after the other. *)
Ltac run_step :=
  match goal with
  | H : (inl _, _) = (inr _, _) |- _ => discriminate H
  | H : (inr _, _) = (inl _, _) |- _ => discriminate H
  | H : (_, _) = (_, _) |- _ => injection H as H; try subst
  | H : context [match ?x with _ => _ end] |- _ =>
      let E := fresh "E" in destruct x eqn:E; cbn in H
  end.

(** The prologue of the constructor, when it returns, has run [super] and
    the guard, and has made four calls, in this order. *)
Lemma constructorPrologue_inr (scope : Ref) (id : string)
  (props : AmplifyGraphqlApiProps) (w w1 : World) (p : Prologue) :
  constructorPrologue scope id props w = (inr p, w1) ->
  let w0 := snd (Construct_constructor KAmplifyGraphqlApi scope id w) in
  this p = nextRef (heap w)
  /\ validateNoOtherAmplifyGraphqlApiInStack (this p) w0 = (inr tt, w0)
  /\ trace w1
     = trace w ++ [CallAddAmplifyMetadataToStackDescription scope;
                   CallConvertAuthorizationModesToTransformerAuthConfig;
                   CallValidateFunctionSlots;
                   CallSeparateSlots].
Proof.
  intros H; cbv zeta.
  unfold constructorPrologue in H. unfold bind at 1 in H.
  rewrite Construct_constructor_run in H.
  set (w0 := snd (Construct_constructor _ _ _ w)) in *.
  set (this0 := nextRef (heap w)) in *.
  unfold bind at 1 in H.
  assert (Hv : validateNoOtherAmplifyGraphqlApiInStack this0 w0 = (inr tt, w0)).
  { rewrite validateNoOtherAmplifyGraphqlApiInStack_spec in *.
    destruct (getStackForScope this0 true w0) as [[e|rs] w0'] eqn:Hrs;
      [discriminate|].
    pose proof (getStackForScope_world _ _ _ _ _ Hrs) as ->.
    now destruct (existsb _ (nodes rs)). }
  rewrite Hv in H.
  assert (Ht : trace w0 = trace w) by reflexivity.
  clearbody w0. revert H.
  unfold bind, call, callPure, emit, ret; cbn.
  intros H. repeat run_step.
  split; [reflexivity|]. split; [assumption|].
  cbn. rewrite Ht, <- !app_assoc. reflexivity.
Qed.

(** From [executeTransform] on: whatever the outcome, the calls made are
    added at the end of the trace, and [executeTransform] is given the
    environment name the constructor has read. *)
Lemma constructorTransform_trace (id : string) (props : AmplifyGraphqlApiProps)
  (p : Prologue) (name : string) (w w' : World) (r : Result AmplifyGraphqlApi) :
  constructorTransform id props p name w = (r, w') ->
  exists evs,
    trace w' = trace w ++ evs
    /\ (forall config, In (CallExecuteTransform config) evs ->
          amplifyEnvironmentName (synthParameters config) = name)
    /\ (forall api, r = inr api -> self api = this p).
Proof.
  unfold constructorTransform, storeOutput, bind, call, callPure, emit, ret; cbn.
  intros H.
  repeat run_step;
    (eexists; split; [cbn; rewrite <- ?app_assoc; reflexivity|];
     split;
     [ intros config Hin; cbn in Hin;
       repeat (destruct Hin as [Hin|Hin]; [try discriminate Hin|]);
       try contradiction; try (injection Hin as <-; reflexivity)
     | intros api Hapi; try discriminate Hapi;
       injection Hapi as <-; reflexivity ]).
Qed.

Lemma readAmplifyEnvironmentName_run (this : Ref) (w : World) :
  let name := tryGetContext (heap w) this amplifyEnvironmentNameKey ?? "NONE" in
  let w' := {| heap := heap w;
               trace := trace w ++ [CallTryGetContext amplifyEnvironmentNameKey] |} in
  readAmplifyEnvironmentName this w
  = if Nat.ltb 8 (String.length name)
    then (inl (environmentNameError name), w')
    else (inr name, w').
Proof.
  unfold readAmplifyEnvironmentName, bind, call, emit, throw, ret.
  cbn -[Nat.ltb String.length].
  match goal with |- context [if ?b then _ else _] => now destruct b end.
Qed.

(** The guard as it runs, right after [super]: [rootStack] is the
    outermost stack of the new construct, in the tree that holds it. *)
Lemma guard_after_super
  (scope : Ref) (id : string) (props : AmplifyGraphqlApiProps) (w : World)
  (rootStack : Construct) :
  let this := nextRef (heap w) in
  let w0 := snd (Construct_constructor KAmplifyGraphqlApi scope id w) in
  getStackForScope this true w0 = (inr rootStack, w0) ->
  ((exists n, In n (nodes rootStack)
              /\ isAmplifyGraphqlApi n = true /\ ref n <> this) ->
   AmplifyGraphqlApi_constructor scope id props w
   = (inl (Error "Only one AmplifyGraphqlApi is expected in a stack"), w0)
   /\ trace w0 = trace w)
  /\ ((forall n, In n (nodes rootStack) ->
                isAmplifyGraphqlApi n = true -> ref n = this) ->
      validateNoOtherAmplifyGraphqlApiInStack this w0 = (inr tt, w0))
  /\ (forall api w',
        AmplifyGraphqlApi_constructor scope id props w = (inr api, w') ->
        self api = this
        /\ forall n1 n2, In n1 (nodes rootStack) -> In n2 (nodes rootStack) ->
             isAmplifyGraphqlApi n1 = true -> isAmplifyGraphqlApi n2 = true ->
             ref n1 = this /\ ref n2 = this).
Proof.
  intros this0 w0 Hrs.
  pose proof (validateNoOtherAmplifyGraphqlApiInStack_spec this0 w0) as Hv.
  rewrite Hrs in Hv.
  split; [|split].
  - intros Hex. apply otherAmplifyGraphqlApi_exists in Hex.
    rewrite Hex in Hv. split; [|reflexivity].
    unfold AmplifyGraphqlApi_constructor, constructorPrologue.
    unfold bind at 1 2. rewrite Construct_constructor_run.
    fold this0 w0. unfold bind at 1. now rewrite Hv.
  - intros Hnone. apply otherAmplifyGraphqlApi_none in Hnone.
    now rewrite Hnone in Hv.
  - intros api w' Hrun.
    unfold AmplifyGraphqlApi_constructor in Hrun. unfold bind at 1 in Hrun.
    destruct (constructorPrologue scope id props w) as [[e|p] w1] eqn:Hp;
      [discriminate|].
    destruct (constructorPrologue_inr _ _ _ _ _ _ Hp) as (Hthis & Hguard & _).
    fold w0 in Hguard. rewrite Hthis in Hguard. fold this0 in Hguard.
    rewrite Hguard in Hv.
    unfold bind at 1 in Hrun.
    destruct (readAmplifyEnvironmentName (GraphqlApi.this p) w1)
      as [[e|name] w2]; [discriminate|].
    destruct (constructorTransform_trace _ _ _ _ _ _ _ Hrun) as (_ & _ & _ & Hself).
    split; [rewrite (Hself api eq_refl); exact Hthis|].
    assert (Hnone : existsb (otherAmplifyGraphqlApi this0) (nodes rootStack) = false)
      by (destruct (existsb _ _); [discriminate Hv | reflexivity]).
    rewrite otherAmplifyGraphqlApi_none in Hnone.
    intros n1 n2 H1 H2 K1 K2. split; now apply Hnone.
Qed.

(** The outermost stack of the new construct is the outermost stack of
    its scope, with the new construct added. *)
Lemma getStackForScope_new (scope : Ref) (id : string) (w : World)
  (rootStack : Construct) :
  wellFormed (heap w) ->
  getStackForScope scope true w = (inr rootStack, w) ->
  let this := nextRef (heap w) in
  let w0 := snd (Construct_constructor KAmplifyGraphqlApi scope id w) in
  getStackForScope this true w0
  = (inr (addChild scope (MkConstruct this id KAmplifyGraphqlApi []) rootStack), w0).
Proof.
  intros Hwf Hrs this0 w0. unfold getStackForScope in *.
  destruct (scopes scope (tree (heap w))) as [path|] eqn:Hpath;
    [|discriminate Hrs].
  cbn [nullish] in Hrs.
  destruct (hd_error (filter isStack path)) as [rs|] eqn:Hhd;
    [|discriminate Hrs].
  injection Hrs as ->.
  unfold w0, Construct_constructor. cbn [snd heap tree]. fold this0.
  rewrite (scopes_addChild scope this0 id KAmplifyGraphqlApi _ path
             (proj1 Hwf) (wellFormed_fresh _ Hwf) Hpath).
  cbn [nullish]. rewrite filter_app, filter_map_commute.
  cbn [filter isStack kind]. rewrite app_nil_r.
  rewrite (filter_ext _ isStack) by (intros a; apply isStack_addChild).
  destruct (filter isStack path) as [|s l]; [discriminate Hhd|].
  injection Hhd as ->. reflexivity.
Qed.

(** C8. Let [rootStack] be the outermost stack of the scope in which an
    [AmplifyGraphqlApi] is constructed. (1) If the tree of [rootStack]
    already holds an [AmplifyGraphqlApi], the constructor throws "Only one
    AmplifyGraphqlApi is expected in a stack", right after [super] and
    before any other call ([executeTransform] included). (2) If it holds
    none, the guard lets the constructor go on. (3) When the constructor
    returns, the tree of [rootStack] held none, and in the tree of the
    outermost stack of the new construct every [AmplifyGraphqlApi] is the
    new construct itself: at most one per stack. *)
Theorem only_one_AmplifyGraphqlApi_in_stack
  (scope : Ref) (id : string) (props : AmplifyGraphqlApiProps) (w : World)
  (rootStack : Construct) :
  wellFormed (heap w) ->
  getStackForScope scope true w = (inr rootStack, w) ->
  let this := nextRef (heap w) in
  let w0 := snd (Construct_constructor KAmplifyGraphqlApi scope id w) in
  ((exists n, In n (nodes rootStack) /\ isAmplifyGraphqlApi n = true) ->
   AmplifyGraphqlApi_constructor scope id props w
   = (inl (Error "Only one AmplifyGraphqlApi is expected in a stack"), w0)
   /\ trace w0 = trace w)
  /\ ((forall n, In n (nodes rootStack) -> isAmplifyGraphqlApi n = false) ->
      validateNoOtherAmplifyGraphqlApiInStack this w0 = (inr tt, w0))
  /\ (forall api w',
        AmplifyGraphqlApi_constructor scope id props w = (inr api, w') ->
        self api = this
        /\ (forall n, In n (nodes rootStack) -> isAmplifyGraphqlApi n = false)
        /\ exists rootStack',
             getStackForScope this true w0 = (inr rootStack', w0)
             /\ forall n, In n (nodes rootStack') ->
                  isAmplifyGraphqlApi n = true -> ref n = this).
Proof.
  intros Hwf Hrs this0 w0.
  pose proof (getStackForScope_new scope id w rootStack Hwf Hrs) as Hrs'.
  cbv zeta in Hrs'. fold this0 w0 in Hrs'.
  set (c := MkConstruct this0 id KAmplifyGraphqlApi []) in *.
  destruct (guard_after_super scope id props w _ Hrs') as (Hthrow & Hpass & Hdone).
  fold this0 w0 in Hthrow, Hpass, Hdone.
  assert (Hsub : forall n, In n (nodes rootStack) -> ref n <> this0).
  { intros n Hn Heq. apply (wellFormed_fresh _ Hwf). fold this0. rewrite <- Heq.
    unfold getStackForScope in Hrs.
    destruct (scopes scope (tree (heap w))) as [path|] eqn:Hpath;
      [|discriminate Hrs].
    cbn [nullish] in Hrs.
    destruct (hd_error (filter isStack path)) as [rs|] eqn:Hhd;
      [|discriminate Hrs].
    injection Hrs as ->.
    assert (Hin : In rootStack path).
    { destruct (filter isStack path) as [|s l] eqn:Hf; [discriminate Hhd|].
      injection Hhd as ->.
      assert (In rootStack (filter isStack path)) by (rewrite Hf; now left).
      now apply filter_In in H. }
    eapply scopes_subtree; eauto. }
  split; [|split].
  - intros (n & Hn & Hk). apply Hthrow.
    destruct (addChild_keeps scope c rootStack n Hn) as (n' & Hn' & Hr & Hk').
    exists n'. split; [exact Hn'|]. split.
    + unfold isAmplifyGraphqlApi in *. now rewrite Hk'.
    + rewrite Hr. now apply Hsub.
  - intros Hnone. apply Hpass. intros n' Hn' Hk.
    destruct (addChild_nodes_inv scope c rootStack n' eq_refl Hn')
      as [->|(n & Hn & Hr & Hk')]; [reflexivity|].
    unfold isAmplifyGraphqlApi in Hk. rewrite Hk' in Hk.
    specialize (Hnone n Hn). unfold isAmplifyGraphqlApi in Hnone. congruence.
  - intros api w' Hrun. destruct (Hdone api w' Hrun) as [Hself Hone].
    split; [exact Hself|]. split.
    + intros n Hn. destruct (isAmplifyGraphqlApi n) eqn:Hk; [|reflexivity].
      destruct (addChild_keeps scope c rootStack n Hn) as (n' & Hn' & Hr & Hk').
      assert (Hk2 : isAmplifyGraphqlApi n' = true)
        by (unfold isAmplifyGraphqlApi in *; now rewrite Hk').
      destruct (Hone n' n' Hn' Hn' Hk2 Hk2) as [Href _].
      elim (Hsub n Hn). congruence.
    + eexists. split; [exact Hrs'|].
      intros n Hn Hk. now destruct (Hone n n Hn Hn Hk Hk).
Qed.

(** C9. Once the first statements of the constructor have returned, it
    reads the context value [amplifyEnvironmentName]: (1) a value longer
    than 8 makes the constructor throw, and the calls made by then are the
    five listed, [executeTransform] not among them; (2) without a value
    the name is [NONE] and the constructor goes on to [executeTransform];
    (3) whatever the outcome, every call of [executeTransform] is given
    the context value, or [NONE], and that name is at most 8 long. *)
Theorem amplifyEnvironmentName_length_guard
  (scope : Ref) (id : string) (props : AmplifyGraphqlApiProps) (w w1 : World)
  (p : Prologue) :
  constructorPrologue scope id props w = (inr p, w1) ->
  let found := tryGetContext (heap w1) (this p) "amplifyEnvironmentName" in
  let w2 := {| heap := heap w1;
               trace := trace w1 ++ [CallTryGetContext "amplifyEnvironmentName"] |} in
  (forall name, found = Some name -> 8 < String.length name ->
     AmplifyGraphqlApi_constructor scope id props w
     = (inl (Error ("or cdk --context env must have a length <= 8, found " +:+ name)),
        w2)
     /\ trace w2
        = trace w ++ [CallAddAmplifyMetadataToStackDescription scope;
                      CallConvertAuthorizationModesToTransformerAuthConfig;
                      CallValidateFunctionSlots;
                      CallSeparateSlots;
                      CallTryGetContext "amplifyEnvironmentName"])
  /\ (found = None ->
      AmplifyGraphqlApi_constructor scope id props w
      = constructorTransform id props p "NONE" w2)
  /\ (forall r w',
        AmplifyGraphqlApi_constructor scope id props w = (r, w') ->
        exists evs,
          trace w' = trace w ++ evs
          /\ forall config, In (CallExecuteTransform config) evs ->
               amplifyEnvironmentName (synthParameters config) = found ?? "NONE"
               /\ String.length (found ?? "NONE") <= 8).
Proof.
  intros Hp found w2.
  destruct (constructorPrologue_inr _ _ _ _ _ _ Hp) as (_ & _ & Htrace).
  assert (Hrun : AmplifyGraphqlApi_constructor scope id props w
                 = if Nat.ltb 8 (String.length (found ?? "NONE"))
                   then (inl (environmentNameError (found ?? "NONE")), w2)
                   else constructorTransform id props p (found ?? "NONE") w2).
  { unfold AmplifyGraphqlApi_constructor. unfold bind at 1. rewrite Hp.
    unfold bind at 1. rewrite readAmplifyEnvironmentName_run. cbv zeta.
    fold found w2. now destruct (Nat.ltb 8 _). }
  assert (Htrace2 : trace w2
                    = trace w ++ [CallAddAmplifyMetadataToStackDescription scope;
                                  CallConvertAuthorizationModesToTransformerAuthConfig;
                                  CallValidateFunctionSlots;
                                  CallSeparateSlots;
                                  CallTryGetContext "amplifyEnvironmentName"]).
  { unfold w2; cbn. rewrite Htrace, <- app_assoc. reflexivity. }
  split; [|split].
  - intros name Hfound Hlen. rewrite Hrun, Hfound. cbn [nullish].
    apply Nat.ltb_lt in Hlen. rewrite Hlen. now split.
  - intros Hfound. rewrite Hrun, Hfound. reflexivity.
  - intros r w' Hres. rewrite Hrun in Hres.
    destruct (Nat.ltb 8 (String.length (found ?? "NONE"))) eqn:Hlen.
    + injection Hres as <- <-. eexists. split; [exact Htrace2|].
      intros config Hin. cbn in Hin.
      repeat (destruct Hin as [Hin|Hin]; [discriminate Hin|]). contradiction.
    + apply Nat.ltb_ge in Hlen.
      destruct (constructorTransform_trace _ _ _ _ _ _ _ Hres)
        as (evs & Hevs & Hcfg & _).
      eexists. split.
      * rewrite Hevs, Htrace2, <- app_assoc. reflexivity.
      * intros config Hin. apply in_app_or in Hin as [Hin|Hin].
        -- cbn in Hin.
           repeat (destruct Hin as [Hin|Hin]; [discriminate Hin|]). contradiction.
        -- split; [now apply Hcfg | exact Hlen].
Qed.

End Guards.

(** *** The constructor on the small application *)

(** A first [AmplifyGraphqlApi] in the stack: the constructor returns, and
    [executeTransform] has been called with the name [NONE]. *)
Example first_api_is_built :
  let run := AmplifyGraphqlApi_constructor (C := demoCollaborators None)
               1 "api" demoProps (demoWorld [] 2) in
  (exists api, fst run = inr api /\ self api = 2)
  /\ tree (heap (snd run))
     = MkConstruct 0 "App" KOther [MkConstruct 1 "Stack" KStack [otherApi]]
  /\ map (fun e => match e with
                   | CallExecuteTransform config =>
                       Some (amplifyEnvironmentName (synthParameters config))
                   | _ => None
                   end) (trace (snd run))
     = [None; None; None; None; None; None; Some "NONE"; None; None; None; None].
Proof. cbv zeta. split; [eexists; split; reflexivity|]. split; reflexivity. Qed.

(** A second one in the same stack: the guard throws; no call has been
    made, and [super] has already put the new construct in the tree. *)
Example second_api_is_refused :
  let run := AmplifyGraphqlApi_constructor (C := demoCollaborators None)
               1 "api2" demoProps (demoWorld [otherApi] 3) in
  fst run = inl (Error "Only one AmplifyGraphqlApi is expected in a stack")
  /\ trace (snd run) = []
  /\ tree (heap (snd run))
     = MkConstruct 0 "App" KOther
         [MkConstruct 1 "Stack" KStack
            [otherApi; MkConstruct 3 "api2" KAmplifyGraphqlApi []]].
Proof. repeat split. Qed.

(** An environment name of nine characters: the constructor throws. *)
Example long_environment_name_is_refused :
  fst (AmplifyGraphqlApi_constructor (C := demoCollaborators (Some "productio"))
         1 "api" demoProps (demoWorld [] 2))
  = inl (Error "or cdk --context env must have a length <= 8, found productio").
Proof. reflexivity. Qed.

(** Eight characters pass. *)
Example eight_character_name_passes :
  exists api,
    fst (AmplifyGraphqlApi_constructor (C := demoCollaborators (Some "producti"))
           1 "api" demoProps (demoWorld [] 2))
    = inr api.
Proof. eexists; reflexivity. Qed.

Lemma demoWorld_wellFormed (children : list Construct) (next : Ref) :
  NoDup (0 :: 1 :: map ref (flat_map nodes children)) ->
  Forall (fun r => r < next) (0 :: 1 :: map ref (flat_map nodes children)) ->
  wellFormed (heap (demoWorld children next)).
Proof.
  intros Hnd Hlt. split; cbn; unfold refs; cbn; rewrite app_nil_r; assumption.
Defined.

Lemma only_one_AmplifyGraphqlApi_in_stack_witness :
  (let w := demoWorld [otherApi] 3 in
   let w0 := snd (Construct_constructor KAmplifyGraphqlApi 1 "api2" w) in
   AmplifyGraphqlApi_constructor (C := demoCollaborators None) 1 "api2" demoProps w
   = (inl (Error "Only one AmplifyGraphqlApi is expected in a stack"), w0)
   /\ trace w0 = trace w)
  /\ (forall n, In n (nodes (MkConstruct 1 "Stack" KStack [])) ->
               isAmplifyGraphqlApi n = false).
Proof.
  split.
  - refine (proj1 (only_one_AmplifyGraphqlApi_in_stack
                     (C := demoCollaborators None) 1 "api2" demoProps
                     (demoWorld [otherApi] 3)
                     (MkConstruct 1 "Stack" KStack [otherApi])
                     _ eq_refl) _).
    + apply demoWorld_wellFormed; cbn.
      * repeat constructor; cbn; intuition discriminate.
      * repeat constructor.
    + exists otherApi. split; [right; left; reflexivity | reflexivity].
  - refine (proj1 (proj2 (proj2 (proj2 (only_one_AmplifyGraphqlApi_in_stack
                     (C := demoCollaborators None) 1 "api" demoProps
                     (demoWorld [] 2)
                     (MkConstruct 1 "Stack" KStack [])
                     _ eq_refl)) _ _ eq_refl))).
    apply demoWorld_wellFormed; cbn.
    + repeat constructor; cbn; intuition discriminate.
    + repeat constructor.
Defined.

Lemma amplifyEnvironmentName_length_guard_witness :
  let w := demoWorld [] 2 in
  fst (AmplifyGraphqlApi_constructor (C := demoCollaborators (Some "productio"))
         1 "api" demoProps w)
  = inl (Error "or cdk --context env must have a length <= 8, found productio").
Proof.
  cbv zeta.
  pose proof (amplifyEnvironmentName_length_guard
                (C := demoCollaborators (Some "productio")) 1 "api" demoProps
                (demoWorld [] 2) _ _ eq_refl) as H.
  cbv zeta in H.
  destruct H as [H _].
  specialize (H "productio" eq_refl).
  assert (Hlen : 8 < String.length "productio") by (cbv; lia).
  destruct (H Hlen) as [-> _]. reflexivity.
Defined.

End GraphqlApiFacts.

(* ================================================================= *)
(** ** The resolver accumulator: slots and keys *)

Module AccumulatorFacts.
Import TransformerCore.

Lemma inPipeline_true (type field stage : string) (e : ResolverPipelineEntry) :
  inPipeline type field stage e = true
  <-> type = entryType e /\ field = entryField e /\ stage = entryStage e.
Proof.
  unfold inPipeline. rewrite !andb_true_iff, !String.eqb_eq. tauto.
Qed.

Lemma toPipeline_true (type field stage : string) (c : Contribution) :
  toPipeline type field stage c = true
  <-> type = toType c /\ field = toField c /\ stage = toStage c.
Proof.
  unfold toPipeline. rewrite !andb_true_iff, !String.eqb_eq. tauto.
Qed.

Lemma slotsInOrder_nil : slotsInOrder [].
Proof. intros type field stage. reflexivity. Qed.

Section AddEntry.
Variables (type field stage contributor logicText : string).
Variable acc : Accumulator.
Hypothesis Hacc : slotsInOrder acc.


Lemma no_collision :
  find (fun e => inPipeline type field stage e
                 && Nat.eqb (entrySlot e) (nextSlot type field stage acc)) acc
  = None.
Proof.
  destruct (find _ acc) as [e|] eqn:E; [exfalso | reflexivity].
  apply find_some in E as [Hin He].
  apply andb_true_iff in He as [Hp Hs]. apply Nat.eqb_eq in Hs.
  assert (Hslot : In (entrySlot e)
                     (map entrySlot (filter (inPipeline type field stage) acc)))
    by (apply in_map, filter_In; auto).
  rewrite Hacc, in_seq in Hslot. lia.
Qed.

Lemma addPipelineEntry_next :
  addPipelineEntry type field stage contributor logicText acc
  = inr (nextSlot type field stage acc, acc ++ [newEntry type field stage contributor logicText acc]).
Proof. unfold addPipelineEntry. cbv zeta. now rewrite no_collision. Qed.

Lemma nextSlot_snoc (type' field' stage' : string) :
  nextSlot type' field' stage' (acc ++ [newEntry type field stage contributor logicText acc])
  = if inPipeline type' field' stage'
          (newEntry type field stage contributor logicText acc)
    then S (nextSlot type' field' stage' acc)
    else nextSlot type' field' stage' acc.
Proof.
  unfold nextSlot. rewrite filter_app, length_app. simpl.
  destruct (inPipeline type' field' stage' _); simpl; lia.
Qed.

Lemma slotsInOrder_snoc : slotsInOrder (acc ++ [newEntry type field stage contributor logicText acc]).
Proof.
  intros type' field' stage'. rewrite nextSlot_snoc.
  rewrite filter_app, map_app, Hacc. cbn [filter].
  destruct (inPipeline type' field' stage' _) eqn:E; cbn [map].
  - apply inPipeline_true in E as (-> & -> & ->).
    now rewrite seq_S.
  - now rewrite app_nil_r.
Qed.

End AddEntry.

Lemma contribute_slots (calls : list Contribution) :
  forall acc, slotsInOrder acc ->
  exists slots acc',
    contribute calls acc = inr (slots, acc')
    /\ slotsInOrder acc'
    /\ length slots = length calls
    /\ forall type field stage,
         let n := length (filter (toPipeline type field stage) calls) in
         slotsOf type field stage calls slots
         = seq (nextSlot type field stage acc) n
         /\ nextSlot type field stage acc'
            = nextSlot type field stage acc + n.
Proof.
  induction calls as [|c rest IH]; intros acc Hacc.
  - exists [], acc. repeat split; trivial.
  - cbn [contribute].
    rewrite (addPipelineEntry_next _ _ _ (by_ c) (fragment c) acc Hacc).
    pose proof (slotsInOrder_snoc (toType c) (toField c) (toStage c)
                  (by_ c) (fragment c) acc Hacc) as Hacc1.
    destruct (IH _ Hacc1) as (slots & acc' & -> & Hacc' & Hlen & Hslots).
    eexists _, acc'. split; [reflexivity|]. split; [exact Hacc'|].
    split; [simpl; congruence|].
    intros type field stage. unfold slotsOf in *. cbn [combine filter fst].
    specialize (Hslots type field stage). cbv zeta in Hslots.
    rewrite nextSlot_snoc in Hslots.
    unfold inPipeline, newEntry in Hslots;
      cbn [entryType entryField entryStage] in Hslots.
    fold (toPipeline type field stage c) in Hslots.
    destruct Hslots as [Hseq Hnext].
    destruct (toPipeline type field stage c) eqn:E.
    + cbn [map snd length seq]. rewrite Hseq, Hnext.
      apply toPipeline_true in E as (-> & -> & ->). split; [reflexivity | lia].
    + split; assumption.
Qed.

(** C1. The calls of [addPipelineEntry] of a run, starting from the empty
    accumulator, all return a slot, and for every (type, field, stage) the
    slots returned to the calls on it are 0, 1, 2, ... in the order of the
    calls, whoever the contributors are; the entries of the accumulator
    hold the same slots. *)
Theorem slot_monotonicity (calls : list Contribution) :
  exists slots acc,
    contribute calls [] = inr (slots, acc)
    /\ length slots = length calls
    /\ forall type field stage,
         slotsOf type field stage calls slots
         = seq 0 (length (filter (toPipeline type field stage) calls))
         /\ map entrySlot (filter (inPipeline type field stage) acc)
            = seq 0 (length (filter (toPipeline type field stage) calls)).
Proof.
  destruct (contribute_slots calls [] slotsInOrder_nil)
    as (slots & acc & Hrun & Hacc & Hlen & Hslots).
  exists slots, acc. split; [exact Hrun|]. split; [exact Hlen|].
  intros type field stage.
  destruct (Hslots type field stage) as [Hseq Hnext].
  split; [exact Hseq|]. now rewrite Hacc, Hnext.
Qed.

(** Two transformers, three calls on [Query.getPost.auth] and one on
    [Query.listPosts.auth] in between. *)
Example slots_of_two_transformers :
  let call type field by_ :=
    {| toType := type; toField := field; toStage := "auth"; by_ := by_;
       fragment := "" |} in
  option_map fst
    (match contribute [call "Query" "getPost" "model";
                       call "Query" "listPosts" "model";
                       call "Query" "getPost" "auth";
                       call "Query" "getPost" "model"] [] with
     | inr r => Some r
     | inl _ => None
     end)
  = Some [0; 0; 1; 2].
Proof. reflexivity. Qed.

(** Insertion keeps the entries and their ascending order. *)
Lemma insertBySlot_perm (e : ResolverPipelineEntry) (l : list ResolverPipelineEntry) :
  Permutation (e :: l) (insertBySlot e l).
Proof.
  induction l as [|x l IH]; simpl; [reflexivity|].
  destruct (Nat.leb (entrySlot e) (entrySlot x)); [reflexivity|].
  rewrite perm_swap. now constructor.
Qed.

Lemma sortBySlot_perm (l : list ResolverPipelineEntry) :
  Permutation l (sortBySlot l).
Proof.
  induction l as [|e l IH]; simpl; [constructor|].
  rewrite <- insertBySlot_perm. now constructor.
Qed.

Lemma insertBySlot_sorted (e : ResolverPipelineEntry) (l : list ResolverPipelineEntry) :
  StronglySorted slotLe l -> StronglySorted slotLe (insertBySlot e l).
Proof.
  induction 1 as [|x l Hs IH Hx]; simpl.
  - repeat constructor.
  - destruct (Nat.leb_spec (entrySlot e) (entrySlot x)) as [Hle|Hgt].
    + constructor; [now constructor|].
      constructor; [exact Hle|].
      eapply Forall_impl; [|exact Hx]. unfold slotLe. intros; lia.
    + constructor; [exact IH|].
      rewrite <- (insertBySlot_perm e l).
      constructor; [unfold slotLe; lia | exact Hx].
Qed.

Lemma sortBySlot_sorted (l : list ResolverPipelineEntry) :
  StronglySorted slotLe (sortBySlot l).
Proof.
  induction l as [|e l IH]; simpl; [constructor|].
  now apply insertBySlot_sorted.
Qed.

(** C4. The resolver map that [finalize] produces is, entry for entry,
    the entries of the accumulator sorted by ascending slot, each under
    the key [Type.field.stage.slotIndex.req.vtl] made of its own type,
    field, stage and slot, with its logic as the text. *)
Theorem finalize_key_format (context : TransformerContext) :
  exists entries,
    Permutation (resolvers context) entries
    /\ StronglySorted (fun a b => entrySlot a <= entrySlot b) entries
    /\ finalize context
       = map (fun e =>
                (entryType e +:+ "." +:+ entryField e +:+ "." +:+ entryStage e
                   +:+ "." +:+ decimal (entrySlot e) +:+ ".req.vtl",
                 logic e))
             entries.
Proof.
  exists (sortBySlot (resolvers context)).
  split; [apply sortBySlot_perm|]. split; [apply sortBySlot_sorted|].
  reflexivity.
Qed.

(** The keys the tests of the auth transformer look up are of this
    format. *)
Example key_of_the_auth_tests :
  serializeKey "Query" "getPost" "auth" 1 = "Query.getPost.auth.1.req.vtl"
  /\ serializeKey "Query" "listPostOwners" "postAuth" 1
     = "Query.listPostOwners.postAuth.1.req.vtl"
  /\ serializeKey "Query" "getPost" "auth" 12 = "Query.getPost.auth.12.req.vtl".
Proof. repeat split. Qed.

End AccumulatorFacts.

(* ================================================================= *)
(** ** The orchestrator: gating and determinism *)

Module PipelineFacts.
Import TransformerCore Pipeline.

Section Orchestrated.
Variable o : Orchestrator.
Variable input : TransformInput.

Lemma step_not_terminal (m m' : Machine) :
  step o input m m' -> terminal m = false.
Proof. now destruct 1. Qed.

(** The relation and the function describe the same transitions. *)
Lemma step_next (m m' : Machine) : step o input m m' -> next o input m = m'.
Proof.
  destruct 1 as [r doc H|r msg H|r H|r errs H Hne|r r' H|r r' e H
                |r r' H|r r' e H|r r' H|r r' e H|r H|r errs H Hne];
    cbn [next]; rewrite ?H; try reflexivity.
  - subst errs. now destruct (validate _ _).
  - subst errs. now destruct (validate _ _).
Qed.

Lemma next_step (m : Machine) :
  terminal m = false -> step o input m (next o input m).
Proof.
  destruct m as [r|r|r|r|r|r|r out|r e]; cbn [terminal next]; intros Ht;
    try discriminate.
  - destruct (parse o (sdl input)) eqn:E; now constructor.
  - destruct (validate _ _) eqn:E; [now constructor|].
    now constructor.
  - destruct (perNodeTransform _ r) as [[r' e]|r'] eqn:E; now constructor.
  - destruct (wholeSchemaTransform _ r) as [[r' e]|r'] eqn:E; now constructor.
  - destruct (resolverGeneration _ r) as [[r' e]|r'] eqn:E; now constructor.
  - destruct (validate _ _) eqn:E; [now constructor|].
    now constructor.
Qed.

(** A state has at most one successor. *)
Lemma step_deterministic (m m1 m2 : Machine) :
  step o input m m1 -> step o input m m2 -> m1 = m2.
Proof. intros H1 H2. apply step_next in H1, H2. congruence. Qed.

(** A run ends in at most one state. *)
Lemma runs_deterministic (m final1 final2 : Machine) :
  runs o input m final1 -> runs o input m final2 -> final1 = final2.
Proof.
  intros H1; revert final2.
  induction H1 as [m Ht|m m' final Hs _ IH]; intros final2 H2.
  - destruct H2 as [m _|m m2 final2 Hs2 _]; [reflexivity|].
    apply step_not_terminal in Hs2. congruence.
  - destruct H2 as [m Ht|m m2 final2 Hs2 H2].
    + apply step_not_terminal in Hs. congruence.
    + rewrite (step_deterministic _ _ _ Hs2 Hs) in H2. now apply IH.
Qed.

Lemma runs_next (m final : Machine) :
  runs o input (next o input m) final -> runs o input m final.
Proof.
  intros H. destruct (terminal m) eqn:Ht.
  - now destruct m.
  - eapply runs_step; [now apply next_step | exact H].
Qed.

Lemma next_stagesLeft (m : Machine) :
  stagesLeft (next o input m) <= pred (stagesLeft m).
Proof.
  destruct m as [r|r|r|r|r|r|r out|r e]; cbn [next stagesLeft pred];
    unfold afterStage;
    repeat match goal with
           | |- context [match ?x with _ => _ end] => destruct x
           end; cbn; lia.
Qed.

Lemma runs_iterate (n : nat) (m : Machine) :
  stagesLeft m <= n -> runs o input m (Nat.iter n (next o input) m).
Proof.
  revert m; induction n as [|n IH]; intros m Hm.
  - cbn. apply runs_end. destruct m; cbn in *; trivial; lia.
  - rewrite Nat.iter_succ_r. apply runs_next, IH.
    pose proof (next_stagesLeft m). lia.
Qed.

(** Every pipeline run ends, in the state [transform] computes. *)
Lemma runs_transform :
  runs o input (Parsing (initialRun input)) (transform o input).
Proof. exact (runs_iterate 6 (Parsing (initialRun input)) (le_n 6)). Qed.

Lemma next_Failed (r : Run) (e : PipelineError) :
  next o input (Failed r e) = Failed r e.
Proof. reflexivity. Qed.

Lemma unknown_directive_reported (doc : SchemaDocument) (occ : Occurrence) :
  In occ (occurrences doc) ->
  lookupSpec (registry o) (directiveName (used occ)) = None ->
  In (place occ, unknownDirective (directiveName (used occ)))
     (validate (registry o) doc).
Proof.
  intros Hin Hnone. unfold validate. apply in_or_app. left.
  apply in_flat_map. exists occ. split; [exact Hin|].
  unfold checkOccurrence. rewrite Hnone. now left.
Qed.

(** C6. When the document uses a directive name that the registry does not
    hold, the pipeline fails in [Validating] with the collected errors,
    the unknown directive among them; no hook has been invoked, and the
    run holds the document as parsed and no resolver entry. Every run of
    the pipeline ends in this state. *)
Theorem directive_gating (doc : SchemaDocument) (directive : string) :
  parse o (sdl input) = inr doc ->
  usesUnregistered (registry o) doc directive ->
  exists errors where_,
    In (where_, unknownDirective directive) errors
    /\ transform o input
       = Failed (withSchema doc (initialRun input)) (ValidationErrors errors)
    /\ (forall final,
          runs o input (Parsing (initialRun input)) final ->
          final = transform o input)
    /\ invoked (runOf (transform o input)) = []
    /\ schema (context (runOf (transform o input))) = doc
    /\ resolvers (context (runOf (transform o input))) = [].
Proof.
  intros Hparse [Hnone (occ & Hin & <-)].
  pose proof (unknown_directive_reported doc occ Hin Hnone) as Herr.
  assert (Hrun : transform o input
                 = Failed (withSchema doc (initialRun input))
                          (ValidationErrors (validate (registry o) doc))).
  { unfold transform. cbv zeta. cbn [next]. rewrite Hparse. cbn [next].
    cbn [withSchema context schema].
    destruct (validate (registry o) doc) as [|e errors]; [contradiction|].
    reflexivity. }
  exists (validate (registry o) doc), (place occ).
  split; [exact Herr|]. split; [exact Hrun|]. split.
  - intros final Hfinal.
    exact (runs_deterministic _ _ _ Hfinal runs_transform).
  - rewrite Hrun. repeat split.
Qed.

End Orchestrated.

Import PipelineDemo.

(** The small pipeline on the schema of [Post]: both transformers
    contribute to [Query.getPost.auth], in registration order. *)
Example demo_output :
  outputOf (transform demoOrchestrator (demoInput postSdl))
  = Some {| outputSchema := "Post Query";
            outputResolvers := [("Query.getPost.auth.0.req.vtl", "## auth");
                                ("Query.getPost.auth.1.req.vtl", "## auth")];
            outputAssets := [] |}.
Proof. reflexivity. Qed.

Example demo_hooks :
  map (fun c => (calledTransformer c, calledHook c))
      (invoked (runOf (transform demoOrchestrator (demoInput postSdl))))
  = [("model", OnTypeDefinition); ("auth", OnTypeDefinition);
     ("model", TransformSchema); ("auth", TransformSchema);
     ("model", GenerateResolvers); ("auth", GenerateResolvers)].
Proof. reflexivity. Qed.

Example demo_misspelt :
  transform demoOrchestrator (demoInput misspeltSdl)
  = Failed (withSchema [postType "modle"] (initialRun (demoInput misspeltSdl)))
           (ValidationErrors
              [({| atType := "Post"; atField := None |}, "Unknown directive @modle")]).
Proof. reflexivity. Qed.

Lemma directive_gating_witness :
  exists errors where_,
    In (where_, unknownDirective "modle") errors
    /\ transform demoOrchestrator (demoInput misspeltSdl)
       = Failed (withSchema [postType "modle"] (initialRun (demoInput misspeltSdl)))
                (ValidationErrors errors)
    /\ (forall final,
          runs demoOrchestrator (demoInput misspeltSdl)
               (Parsing (initialRun (demoInput misspeltSdl))) final ->
          final = transform demoOrchestrator (demoInput misspeltSdl))
    /\ invoked (runOf (transform demoOrchestrator (demoInput misspeltSdl))) = []
    /\ schema (context (runOf (transform demoOrchestrator (demoInput misspeltSdl))))
       = [postType "modle"]
    /\ resolvers (context (runOf (transform demoOrchestrator (demoInput misspeltSdl))))
       = [].
Proof.
  apply (directive_gating demoOrchestrator (demoInput misspeltSdl)
           [postType "modle"] "modle" eq_refl).
  split; [reflexivity|].
  eexists. split; [left; reflexivity | reflexivity].
Defined.

End PipelineFacts.

(* ================================================================= *)
(** ** The [.search] variant of an instance type name *)

Module SearchVariantFacts.
Import JsString JsStringFacts.

Lemma prefix_split (p s : string) :
  prefix p s = true -> s = p +:+ drop (String.length p) s.
Proof.
  revert s; induction p as [|c p IH]; intros s.
  - reflexivity.
  - destruct s as [|c' s]; simpl; [intros H; discriminate H|].
    destruct (ascii_dec c c') as [<-|_]; intros H; [|discriminate H].
    now rewrite <- IH.
Qed.

Lemma length_append (a b : string) :
  String.length (a +:+ b) = String.length a + String.length b.
Proof. induction a; simpl; auto. Qed.

(** A string in which the pattern does not occur is left as it is. *)
Lemma replace_no_occurrence (pattern replacement s : string) :
  (forall a b, s <> a +:+ pattern +:+ b) ->
  replace pattern replacement s = s.
Proof.
  induction s as [|c s IH]; intros Hno.
  - cbn [replace]. destruct (prefix pattern "") eqn:E; [|reflexivity].
    apply prefix_split in E. elim (Hno "" (drop (String.length pattern) "")).
    exact E.
  - cbn [replace]. destruct (prefix pattern (String c s)) eqn:E.
    + apply prefix_split in E.
      elim (Hno "" (drop (String.length pattern) (String c s))). exact E.
    + f_equal. apply IH. intros a b ->. apply (Hno (String c a) b). reflexivity.
Qed.

(** Only the first occurrence of the pattern is replaced. *)
Lemma replace_first_occurrence (pattern replacement a b : string) :
  (forall a' b', String.length a' < String.length a ->
                 a +:+ pattern +:+ b <> a' +:+ pattern +:+ b') ->
  replace pattern replacement (a +:+ pattern +:+ b) = a +:+ replacement +:+ b.
Proof.
  induction a as [|c a IH]; intros Hfirst.
  - cbn [append]. apply replace_head.
  - cbn [append replace].
    destruct (prefix pattern (String c (a +:+ pattern +:+ b))) eqn:E.
    + apply prefix_split in E.
      elim (Hfirst "" (drop (String.length pattern)
                            (String c (a +:+ pattern +:+ b)))
                   (Nat.lt_0_succ _)).
      exact E.
    + f_equal. apply IH. intros a' b' Hlen Heq.
      apply (Hfirst (String c a') b'); [simpl; lia|].
      simpl. now rewrite Heq.
Qed.

(** X1. The function that makes the [.search] variants,
    [(type) => type.replace('elasticsearch', 'search')], on any name: a
    name in which [elasticsearch] does not occur is returned as it is, and
    in a name in which it occurs only its first occurrence is replaced. *)
Theorem search_variant_of_any_name (type : string) :
  ((forall a b, type <> a +:+ "elasticsearch" +:+ b) ->
   replace "elasticsearch" "search" type = type)
  /\ (forall a b,
        type = a +:+ "elasticsearch" +:+ b ->
        (forall a' b', String.length a' < String.length a ->
                       type <> a' +:+ "elasticsearch" +:+ b') ->
        replace "elasticsearch" "search" type = a +:+ "search" +:+ b).
Proof.
  split.
  - apply replace_no_occurrence.
  - intros a b -> Hfirst. now apply replace_first_occurrence.
Qed.

Lemma search_variant_of_any_name_witness :
  replace "elasticsearch" "search" "m5.large.opensearch" = "m5.large.opensearch"
  /\ replace "elasticsearch" "search" "x.elasticsearch.elasticsearch"
     = "x.search.elasticsearch".
Proof.
  split.
  - apply (proj1 (search_variant_of_any_name "m5.large.opensearch")).
    intros a b H.
    assert (Hp : prefix "elasticsearch" (drop (String.length a) "m5.large.opensearch") = true).
    { rewrite H, drop_app_length. apply prefix_app. }
    assert (Hlen : String.length a <= 19).
    { apply (f_equal String.length) in H.
      rewrite !length_append in H. simpl in H. lia. }
    do 20 (destruct a as [|? a]; [discriminate Hp|]). simpl in Hlen. lia.
  - apply (proj2 (search_variant_of_any_name "x.elasticsearch.elasticsearch")
             "x." ".elasticsearch" eq_refl).
    intros a' b' Hlen H.
    destruct a' as [|c1 [|c2 a']]; [| |simpl in Hlen; lia];
      simpl in H; injection H; intros; discriminate.
Defined.

End SearchVariantFacts.

(* ================================================================= *)
(** ** The role and the domain of the searchable transformer *)

Module SearchableDomainFacts.
Import SearchableDomain.

Section Created.
Variable RC : ResourceConstants.
Variable Role : Type.
Variable newDomain :
  GraphqlApi.Ref -> string -> DomainProps -> GraphqlApi.Heap ->
  GraphqlApi.Result Domain * GraphqlApi.Heap.
Variable newRole :
  GraphqlApi.Ref -> string -> RoleProps -> GraphqlApi.Heap ->
  GraphqlApi.Result Role * GraphqlApi.Heap.
Variable generateIAMRoleName : string -> GraphqlApi.Result string.

(** X2. [createSearchableDomainRole]: (1) when the parameter map has no
    role name parameter, or its string is empty, the function throws
    "Could find role name parameter for ..." and the construct tree is as
    it was; (2) when the function returns a role, the parameter is there,
    its string is not empty, and the role was made by [new Role] under the
    logical id of the constants, assumed by [appsync.amazonaws.com] and
    named by [generateIAMRoleName] of that string. *)
Theorem createSearchableDomainRole_needs_role_name
  (stack : GraphqlApi.Ref) (parameterMap : ParameterMap) (h : GraphqlApi.Heap) :
  let found := mapGet parameterMap (OpenSearchAccessIAMRoleName RC) in
  let run := createSearchableDomainRole RC Role newRole generateIAMRoleName
               stack parameterMap h in
  ((found = None \/ exists p, found = Some p /\ valueAsString p = "") ->
   run = (inl (GraphqlApi.Error ("Could find role name parameter for "
                                 +:+ OpenSearchAccessIAMRoleName RC)), h))
  /\ (forall role h',
        run = (inr role, h') ->
        exists p generated,
          found = Some p /\ valueAsString p <> ""
          /\ generateIAMRoleName (valueAsString p) = inr generated
          /\ newRole stack (OpenSearchAccessIAMRoleLogicalID RC)
                     {| assumedBy := "appsync.amazonaws.com";
                        roleName := generated |} h
             = (inr role, h')).
Proof.
  cbv zeta. unfold createSearchableDomainRole.
  destruct (mapGet parameterMap (OpenSearchAccessIAMRoleName RC)) as [p|];
    cbn [option_map GraphqlApi.truthy].
  - destruct (String.eqb_spec (valueAsString p) "") as [Hempty|Hfull].
    + split; [reflexivity|]. intros role h' H. discriminate H.
    + split.
      * intros [H|(q & H & Hq)]; [discriminate H|].
        injection H as <-. contradiction.
      * intros role h' H.
        destruct (generateIAMRoleName (valueAsString p)) as [e|generated] eqn:E;
          [discriminate H|].
        exists p, generated. repeat split; trivial.
  - split; [reflexivity|]. intros role h' H. discriminate H.
Qed.

(** X3. [createSearchableDomain] does not ask for its parameters: with
    the three of them missing from the map, [new Domain] is still called,
    with no volume size, and a domain that it returns is given a cluster
    configuration without instance count and instance type, whatever
    configuration it came with; the function throws only what
    [new Domain] throws. *)
Theorem createSearchableDomain_missing_parameters
  (stack : GraphqlApi.Ref) (parameterMap : ParameterMap) (apiId : string)
  (h : GraphqlApi.Heap) :
  mapGet parameterMap (OpenSearchEBSVolumeGB RC) = None ->
  mapGet parameterMap (OpenSearchInstanceCount RC) = None ->
  mapGet parameterMap (OpenSearchInstanceType RC) = None ->
  let props := {| version := "7.10";
                  ebs := {| enabled := true; volumeType := GP2;
                            volumeSize := None |};
                  zoneAwarenessEnabled := false;
                  domainName := FnConditionIf (HasEnvironmentParameter RC)
                                              (FnRef "AWS::NoValue")
                                              (Literal ("d" +:+ apiId));
                  removalPolicy := DESTROY |} in
  let made := newDomain stack (OpenSearchDomainLogicalID RC) props h in
  createSearchableDomain RC newDomain stack parameterMap apiId h
  = match made with
    | (inl e, h') => (inl e, h')
    | (inr domain, h') =>
        (inr {| domainRef := domainRef domain;
                elasticsearchClusterConfig :=
                  {| instanceCount := None; instanceType := None |} |}, h')
    end.
Proof.
  intros Hsize Hcount Htype. cbv zeta.
  unfold createSearchableDomain, domainProps.
  now rewrite Hsize, Hcount, Htype.
Qed.

End Created.

Lemma createSearchableDomainRole_needs_role_name_witness :
  createSearchableDomainRole demoConstants RoleProps demoNewRole
    demoGenerateIAMRoleName 0
    [("OpenSearchAccessIAMRoleName", {| valueAsString := ""; valueAsNumber := 0 |})]
    demoHeap
  = (inl (GraphqlApi.Error
            "Could find role name parameter for OpenSearchAccessIAMRoleName"),
     demoHeap)
  /\ exists p generated,
       mapGet [("OpenSearchAccessIAMRoleName",
                {| valueAsString := "searchRole"; valueAsNumber := 0 |})]
              "OpenSearchAccessIAMRoleName" = Some p
       /\ valueAsString p <> ""
       /\ demoGenerateIAMRoleName (valueAsString p) = inr generated
       /\ generated = "searchRole-dev".
Proof.
  split.
  - apply (proj1 (createSearchableDomainRole_needs_role_name
                    demoConstants RoleProps demoNewRole demoGenerateIAMRoleName
                    0 _ demoHeap)).
    right. eexists. split; reflexivity.
  - destruct (proj2 (createSearchableDomainRole_needs_role_name
                       demoConstants RoleProps demoNewRole demoGenerateIAMRoleName
                       0 [("OpenSearchAccessIAMRoleName",
                           {| valueAsString := "searchRole"; valueAsNumber := 0 |})]
                       demoHeap) _ _ eq_refl)
      as (p & generated & Hp & Hne & Hg & Hnew).
    exists p, generated. repeat split; trivial.
    cbv in Hp. injection Hp as <-. cbv in Hg. now injection Hg as <-.
Defined.

Lemma createSearchableDomain_missing_parameters_witness :
  createSearchableDomain demoConstants demoNewDomain 0 [] "abc" demoHeap
  = (inr {| domainRef := 1;
            elasticsearchClusterConfig :=
              {| instanceCount := None; instanceType := None |} |},
     {| GraphqlApi.tree :=
          GraphqlApi.MkConstruct 0 "Stack" GraphqlApi.KStack
            [GraphqlApi.MkConstruct 1 "OpenSearchDomain" GraphqlApi.KOther []];
        GraphqlApi.nextRef := 2 |}).
Proof.
  rewrite (createSearchableDomain_missing_parameters
             demoConstants demoNewDomain 0 [] "abc" demoHeap
             eq_refl eq_refl eq_refl).
  reflexivity.
Defined.

End SearchableDomainFacts.

(* ================================================================= *)
(** ** What the [AmplifyGraphqlApi] constructor hands on *)

Module ConstructorFacts.
Import GraphqlApi GraphqlApiFacts.

Lemma find_app {A : Type} (P : A -> bool) (l1 l2 : list A) :
  find P (l1 ++ l2)
  = match find P l1 with Some x => Some x | None => find P l2 end.
Proof.
  induction l1 as [|a l1 IH]; simpl; [reflexivity|]. now destruct (P a).
Qed.

Lemma find_map_key {V : Type} (f : string * V -> string * V)
  (k : string) (l : list (string * V)) :
  (forall kv, fst (f kv) = fst kv) ->
  find (fun kv => String.eqb (fst kv) k) (map f l)
  = option_map f (find (fun kv => String.eqb (fst kv) k) l).
Proof.
  intros Hf. induction l as [|kv l IH]; simpl; [reflexivity|].
  rewrite Hf. now destruct (String.eqb (fst kv) k).
Qed.

Lemma find_filter_other_keys {V : Type} (base over : JsObject V) (k : string) :
  hasKey base k = false ->
  find (fun kv => String.eqb (fst kv) k)
       (filter (fun kv => negb (hasKey base (fst kv))) over)
  = find (fun kv => String.eqb (fst kv) k) over.
Proof.
  intros Hk. induction over as [|kv over IH]; [reflexivity|].
  cbn [filter find].
  destruct (String.eqb (fst kv) k) eqn:E.
  - replace (hasKey base (fst kv)) with false
      by (apply String.eqb_eq in E; now rewrite E).
    cbn [negb find]. now rewrite E.
  - destruct (negb (hasKey base (fst kv))); [cbn [find]; rewrite E|]; exact IH.
Qed.

Lemma hasKey_find {V : Type} (o : JsObject V) (k : string) :
  find (fun kv => String.eqb (fst kv) k) o = None -> hasKey o k = false.
Proof.
  unfold hasKey. induction o as [|kv o IH]; simpl; [reflexivity|].
  destruct (String.eqb (fst kv) k); [discriminate | exact IH].
Qed.

(** Reading a key of [{ ...base, ...over }]: the value of [over] when it
    has the key, that of [base] otherwise. *)
Lemma getKey_spread {V : Type} (base over : JsObject V) (k : string) :
  getKey (spread base over) k
  = match getKey over k with
    | Some v => Some v
    | None => getKey base k
    end.
Proof.
  unfold spread, getKey. rewrite find_app, find_map_key by reflexivity.
  destruct (find (fun kv => String.eqb (fst kv) k) base) as [kv|] eqn:E.
  - cbn [option_map snd].
    apply find_some in E as [_ E]. apply String.eqb_eq in E. rewrite E.
    unfold getKey. now destruct (find _ over) as [[k' v]|].
  - cbn [option_map]. rewrite (find_filter_other_keys _ _ _ (hasKey_find _ _ E)).
    now destruct (find _ over) as [[k' v]|].
Qed.

Ltac step_run :=
  match goal with
  | H : (inl _, _) = (inr _, _) |- _ => discriminate H
  | H : (inr _, _) = (inl _, _) |- _ => discriminate H
  | H : (_, _) = (_, _) |- _ => injection H as H; try subst
  | H : context [match ?x with _ => _ end] |- _ =>
      let E := fresh "E" in destruct x eqn:E; cbn in H
  end.

Section Runs.
Context {T : Types} {C : Collaborators}.

(** What [executeTransform] is given, whatever the outcome of the rest of
    the constructor; it is called at most once. *)
Lemma constructorTransform_config (id : string) (props : AmplifyGraphqlApiProps)
  (p : Prologue) (name : string) (w w' : World) (r : Result AmplifyGraphqlApi) :
  constructorTransform id props p name w = (r, w') ->
  exists evs,
    trace w' = trace w ++ evs
    /\ length (filter isExecuteTransform evs) <= 1
    /\ forall config, In (CallExecuteTransform config) evs ->
         cfg_scope config = this p
         /\ sp_apiName (synthParameters config) = apiName props ?? id
         /\ cfg_schema config = def_schema (definition props)
         /\ customTransformers (transformersFactoryArgs config)
            = transformerPlugins props ?? []
         /\ storageConfig (transformersFactoryArgs config)
            = option_map bucketName (predictionsBucket props)
         /\ stackMapping config = stackMappings props ?? []
         /\ transformParameters config
            = spread defaultTranslationBehavior (translationBehavior props ?? [])
         /\ parseUserDefinedSlots (separatedFunctionSlots p)
            = inr (userDefinedSlots config)
         /\ match conflictResolution props with
            | Some c => exists rc, convertToResolverConfig c = inr rc
                                   /\ resolverConfig config = Some rc
            | None => resolverConfig config = None
            end.
Proof.
  unfold constructorTransform, storeOutput, bind, call, callPure, emit, ret; cbn.
  intros H.
  repeat step_run;
    (eexists; split; [cbn; rewrite <- ?app_assoc; reflexivity|];
     split; [cbn; lia|];
     intros config Hin; cbn in Hin;
     repeat (destruct Hin as [Hin|Hin]; [try discriminate Hin|]);
     try contradiction;
     injection Hin as <-; cbn;
     repeat split; try reflexivity; try assumption; eauto).
Qed.

(** The rest of the constructor, when it returns: the calls it has made,
    in order, and the output it has stored. *)
Lemma constructorTransform_inr (id : string) (props : AmplifyGraphqlApiProps)
  (p : Prologue) (name : string) (w w' : World) (api : AmplifyGraphqlApi) :
  constructorTransform id props p name w = (inr api, w') ->
  exists config output,
    trace w'
    = trace w
      ++ [CallParseUserDefinedSlots]
      ++ match conflictResolution props with
         | Some _ => [CallConvertToResolverConfig]
         | None => []
         end
      ++ [CallExecuteTransform config; CallNewCodegenAssets;
          CallGetGeneratedResources; CallGetGeneratedFunctionSlots;
          CallAddBackendOutputEntry output]
    /\ version output = "1"
    /\ awsAppsyncApiId (payload output) = apiId api
    /\ awsAppsyncApiEndpoint (payload output) = graphqlUrl api
    /\ awsAppsyncApiKey (payload output) = apiKey api
    /\ awsAppsyncAuthenticationType (payload output)
       = authenticationType (cfnGraphqlApi (resources api))
    /\ amplifyApiModelSchemaS3Uri (payload output)
       = modelSchemaS3Uri (codegenAssets api)
    /\ awsAppsyncConflictResolutionMode (payload output)
       = match conflictResolution props with
         | Some c => truthy (handlerType c)
         | None => None
         end
    /\ apiKey api = cfnApiKey (resources api)
    /\ self api = this p.
Proof.
  unfold constructorTransform, storeOutput, bind, call, callPure, emit, ret; cbn.
  intros H.
  repeat step_run;
    (eexists _, _; split; [cbn; rewrite <- ?app_assoc; reflexivity|];
     cbn; repeat split; reflexivity).
Qed.

(** The constructor, when it returns: its first statements have returned,
    the environment name is at most 8 long, and the rest has returned. *)
Lemma constructor_inr (scope : Ref) (id : string) (props : AmplifyGraphqlApiProps)
  (w w' : World) (api : AmplifyGraphqlApi) :
  AmplifyGraphqlApi_constructor scope id props w = (inr api, w') ->
  exists p w1 name,
    constructorPrologue scope id props w = (inr p, w1)
    /\ name = tryGetContext (heap w1) (this p) "amplifyEnvironmentName" ?? "NONE"
    /\ constructorTransform id props p name
         {| heap := heap w1;
            trace := trace w1 ++ [CallTryGetContext "amplifyEnvironmentName"] |}
       = (inr api, w').
Proof.
  unfold AmplifyGraphqlApi_constructor. unfold bind at 1.
  destruct (constructorPrologue scope id props w) as [[e|p] w1] eqn:Hp;
    [discriminate|].
  unfold bind at 1. rewrite readAmplifyEnvironmentName_run. cbv zeta.
  destruct (Nat.ltb 8 _); [discriminate|].
  intros H. exists p, w1. eexists. repeat split. exact H.
Qed.

(** The constructor, whatever its outcome: the calls made are added at the
    end of the trace, and so are those of the rest of the constructor. *)
Lemma constructor_any (scope : Ref) (id : string) (props : AmplifyGraphqlApiProps)
  (w w' : World) (r : Result AmplifyGraphqlApi) :
  AmplifyGraphqlApi_constructor scope id props w = (r, w') ->
  (exists evs, trace w' = trace w ++ evs
               /\ forall config, ~ In (CallExecuteTransform config) evs)
  \/ exists p w1 name,
       constructorPrologue scope id props w = (inr p, w1)
       /\ constructorTransform id props p name
            {| heap := heap w1;
               trace := trace w1 ++ [CallTryGetContext "amplifyEnvironmentName"] |}
          = (r, w').
Proof.
  unfold AmplifyGraphqlApi_constructor. unfold bind at 1.
  destruct (constructorPrologue scope id props w) as [[e|p] w1] eqn:Hp.
  - intros H. injection H as <- <-. left.
    revert Hp. unfold constructorPrologue. unfold bind at 1.
    rewrite Construct_constructor_run. unfold bind at 1.
    rewrite validateNoOtherAmplifyGraphqlApiInStack_spec.
    set (w0 := snd (Construct_constructor _ _ _ w)).
    assert (Ht : trace w0 = trace w) by reflexivity.
    destruct (getStackForScope (nextRef (heap w)) true w0) as [[e0|rs] w0'] eqn:Hrs;
      pose proof (getStackForScope_world _ _ _ _ _ Hrs) as ->.
    + intros H. injection H as <- <-. exists []. rewrite app_nil_r.
      split; [exact Ht | intros config []].
    + destruct (existsb _ (nodes rs)).
      * intros H. injection H as <- <-. exists []. rewrite app_nil_r.
        split; [exact Ht | intros config []].
      * clearbody w0. unfold bind, call, callPure, emit, ret; cbn.
        intros H.
        repeat step_run;
          (eexists; split; [cbn; rewrite Ht, <- ?app_assoc; reflexivity|];
           intros config Hin; cbn in Hin;
           repeat (destruct Hin as [Hin|Hin]; [discriminate Hin|]);
           contradiction).
  - unfold bind at 1. rewrite readAmplifyEnvironmentName_run. cbv zeta.
    destruct (Nat.ltb 8 _).
    + intros H. injection H as <- <-. left.
      destruct (constructorPrologue_inr _ _ _ _ _ _ Hp) as (_ & _ & Htrace).
      eexists. split; [cbn; rewrite Htrace, <- app_assoc; reflexivity|].
      intros config Hin. cbn in Hin.
      repeat (destruct Hin as [Hin|Hin]; [discriminate Hin|]). contradiction.
    + intros H. right. exists p, w1. eexists. split; [reflexivity | exact H].
Qed.

Lemma filter_no_executeTransform (evs : list Event) :
  (forall config, ~ In (CallExecuteTransform config) evs) ->
  filter isExecuteTransform evs = [].
Proof.
  intros Hno. induction evs as [|e evs IH]; [reflexivity|].
  cbn [filter]. destruct e; cbn [isExecuteTransform];
    try (apply IH; intros config Hin; apply (Hno config); now right).
  elim (Hno config). now left.
Qed.

(** X4. Whatever the outcome of the constructor, it calls
    [executeTransform] at most once, and what it gives it comes from the
    properties in this way: the scope is the new construct, the api name
    is [props.apiName], or the id of the construct when there is none,
    the schema is that of the definition, the custom transformers and the
    stack mapping are empty when not given, there is a storage
    configuration exactly when there is a predictions bucket, with its
    name, and a resolver configuration exactly when there is a conflict
    resolution, the one [convertToResolverConfig] returned for it. *)
Theorem executeTransform_configuration
  (scope : Ref) (id : string) (props : AmplifyGraphqlApiProps) (w : World) :
  exists evs,
    trace (snd (AmplifyGraphqlApi_constructor scope id props w)) = trace w ++ evs
    /\ length (filter isExecuteTransform evs) <= 1
    /\ forall config, In (CallExecuteTransform config) evs ->
         cfg_scope config = nextRef (heap w)
         /\ sp_apiName (synthParameters config) = apiName props ?? id
         /\ cfg_schema config = def_schema (definition props)
         /\ customTransformers (transformersFactoryArgs config)
            = transformerPlugins props ?? []
         /\ stackMapping config = stackMappings props ?? []
         /\ storageConfig (transformersFactoryArgs config)
            = option_map bucketName (predictionsBucket props)
         /\ match conflictResolution props with
            | Some c => exists rc, convertToResolverConfig c = inr rc
                                   /\ resolverConfig config = Some rc
            | None => resolverConfig config = None
            end.
Proof.
  destruct (AmplifyGraphqlApi_constructor scope id props w) as [r w'] eqn:Hrun.
  cbn [snd].
  destruct (constructor_any _ _ _ _ _ _ Hrun)
    as [(evs & Hevs & Hno)|(p & w1 & name & Hp & Ht)].
  - exists evs. split; [exact Hevs|]. split.
    + rewrite (filter_no_executeTransform _ Hno). cbn. lia.
    + intros config Hin. now elim (Hno config).
  - destruct (constructorPrologue_inr _ _ _ _ _ _ Hp) as (Hthis & _ & Htrace).
    destruct (constructorTransform_config _ _ _ _ _ _ _ Ht)
      as (evs & Hevs & Hone & Hcfg).
    cbn [trace] in Hevs.
    eexists. split; [rewrite Hevs, Htrace, <- !app_assoc; reflexivity|]. split.
    + cbn [filter isExecuteTransform app]. exact Hone.
    + intros config Hin. cbn [app] in Hin.
      repeat (destruct Hin as [Hin|Hin]; [discriminate Hin|]).
      destruct (Hcfg config Hin) as (H1 & H2 & H3 & H4 & H5 & H6 & _ & _ & H9).
      rewrite Hthis in H1. repeat split; assumption.
Qed.

(** X5. The transform parameters that [executeTransform] is given are the
    default translation behavior overridden by [props.translationBehavior]:
    under every key, the value of the properties when they have the key,
    and the default otherwise. *)
Theorem translationBehavior_overrides_defaults
  (scope : Ref) (id : string) (props : AmplifyGraphqlApiProps) (w : World) :
  exists evs,
    trace (snd (AmplifyGraphqlApi_constructor scope id props w)) = trace w ++ evs
    /\ forall config key,
         In (CallExecuteTransform config) evs ->
         getKey (transformParameters config) key
         = match getKey (translationBehavior props ?? []) key with
           | Some value => Some value
           | None => getKey defaultTranslationBehavior key
           end.
Proof.
  destruct (AmplifyGraphqlApi_constructor scope id props w) as [r w'] eqn:Hrun.
  cbn [snd].
  destruct (constructor_any _ _ _ _ _ _ Hrun)
    as [(evs & Hevs & Hno)|(p & w1 & name & Hp & Ht)].
  - exists evs. split; [exact Hevs|]. intros config key Hin. now elim (Hno config).
  - destruct (constructorPrologue_inr _ _ _ _ _ _ Hp) as (_ & _ & Htrace).
    destruct (constructorTransform_config _ _ _ _ _ _ _ Ht)
      as (evs & Hevs & _ & Hcfg).
    cbn [trace] in Hevs.
    eexists. split; [rewrite Hevs, Htrace, <- !app_assoc; reflexivity|].
    intros config key Hin. cbn [app] in Hin.
    repeat (destruct Hin as [Hin|Hin]; [discriminate Hin|]).
    destruct (Hcfg config Hin) as (_ & _ & _ & _ & _ & _ & H7 & _).
    rewrite H7. apply getKey_spread.
Qed.

(** X6. When the constructor returns, the calls it has made to the
    following functions are, each made once and in this order: the
    metadata of the stack description, the conversion of the
    authorization modes, the validation and the separation of the
    function slots, the reading of the context, the parsing of the slots,
    the conversion of the conflict resolution (only when there is one),
    [executeTransform], the codegen assets, the generated resources, the
    generated function slots, and [addBackendOutputEntry]. Calls that the
    trace does not record (see [Event]) may lie between them. *)
Theorem constructor_calls_in_order
  (scope : Ref) (id : string) (props : AmplifyGraphqlApiProps) (w w' : World)
  (api : AmplifyGraphqlApi) :
  AmplifyGraphqlApi_constructor scope id props w = (inr api, w') ->
  exists config output,
    trace w'
    = trace w
      ++ [CallAddAmplifyMetadataToStackDescription scope;
          CallConvertAuthorizationModesToTransformerAuthConfig;
          CallValidateFunctionSlots;
          CallSeparateSlots;
          CallTryGetContext "amplifyEnvironmentName";
          CallParseUserDefinedSlots]
      ++ match conflictResolution props with
         | Some _ => [CallConvertToResolverConfig]
         | None => []
         end
      ++ [CallExecuteTransform config; CallNewCodegenAssets;
          CallGetGeneratedResources; CallGetGeneratedFunctionSlots;
          CallAddBackendOutputEntry output].
Proof.
  intros Hrun.
  destruct (constructor_inr _ _ _ _ _ _ Hrun) as (p & w1 & name & Hp & _ & Ht).
  destruct (constructorPrologue_inr _ _ _ _ _ _ Hp) as (_ & _ & Htrace).
  destruct (constructorTransform_inr _ _ _ _ _ _ _ Ht)
    as (config & output & Hevs & _).
  exists config, output. rewrite Hevs. cbn [trace].
  rewrite Htrace, <- !app_assoc. reflexivity.
Qed.

(** X7. When the constructor returns, the last call it has made stores an
    output of version 1 that agrees with the construct: the api id, the
    endpoint and the api key of the output are [apiId], [graphqlUrl] and
    [apiKey] of the construct, the key being there exactly when the
    resources hold an api key; the conflict resolution mode is there only
    with a conflict resolution whose handler type is set. *)
Theorem stored_output_agrees_with_construct
  (scope : Ref) (id : string) (props : AmplifyGraphqlApiProps) (w w' : World)
  (api : AmplifyGraphqlApi) :
  AmplifyGraphqlApi_constructor scope id props w = (inr api, w') ->
  exists earlier output,
    trace w' = earlier ++ [CallAddBackendOutputEntry output]
    /\ version output = "1"
    /\ awsAppsyncApiId (payload output) = apiId api
    /\ awsAppsyncApiEndpoint (payload output) = graphqlUrl api
    /\ awsAppsyncApiKey (payload output) = apiKey api
    /\ apiKey api = cfnApiKey (resources api)
    /\ awsAppsyncAuthenticationType (payload output)
       = authenticationType (cfnGraphqlApi (resources api))
    /\ amplifyApiModelSchemaS3Uri (payload output)
       = modelSchemaS3Uri (codegenAssets api)
    /\ awsAppsyncConflictResolutionMode (payload output)
       = match conflictResolution props with
         | Some c => truthy (handlerType c)
         | None => None
         end.
Proof.
  intros Hrun.
  destruct (constructor_inr _ _ _ _ _ _ Hrun) as (p & w1 & name & Hp & _ & Ht).
  destruct (constructorTransform_inr _ _ _ _ _ _ _ Ht)
    as (config & output & Hevs & Hv & Hid & Hurl & Hkey & Hauth & Huri & Hmode
        & Hres & _).
  eexists _, output. split.
  - rewrite Hevs.
    rewrite (app_assoc _ _ [_; _; _; _; CallAddBackendOutputEntry output]).
    change [CallExecuteTransform config; CallNewCodegenAssets;
            CallGetGeneratedResources; CallGetGeneratedFunctionSlots;
            CallAddBackendOutputEntry output]
      with ([CallExecuteTransform config; CallNewCodegenAssets;
             CallGetGeneratedResources; CallGetGeneratedFunctionSlots]
            ++ [CallAddBackendOutputEntry output]).
    rewrite !app_assoc. reflexivity.
  - repeat split; assumption.
Qed.

(** X8. When [validateFunctionSlots] rejects the function slots of the
    properties, the constructor throws: its error is that of the
    validation, unless the guard or one of the two calls before the
    validation has thrown first, and it makes no call after the
    validation: the slots are not separated, the context is not read and
    [executeTransform] is not called. *)
Theorem rejected_function_slots_stop_the_constructor
  (scope : Ref) (id : string) (props : AmplifyGraphqlApiProps) (w : World)
  (e : Exn) :
  validateFunctionSlots (functionSlots props ?? []) = inl e ->
  exists e' evs,
    fst (AmplifyGraphqlApi_constructor scope id props w) = inl e'
    /\ trace (snd (AmplifyGraphqlApi_constructor scope id props w)) = trace w ++ evs
    /\ ((evs = [CallAddAmplifyMetadataToStackDescription scope;
                CallConvertAuthorizationModesToTransformerAuthConfig;
                CallValidateFunctionSlots] /\ e' = e)
        \/ evs = [CallAddAmplifyMetadataToStackDescription scope;
                  CallConvertAuthorizationModesToTransformerAuthConfig]
        \/ evs = [CallAddAmplifyMetadataToStackDescription scope]
        \/ evs = []).
Proof.
  intros Hv.
  assert (H : exists e' evs w',
             AmplifyGraphqlApi_constructor scope id props w = (inl e', w')
             /\ trace w' = trace w ++ evs
             /\ ((evs = [CallAddAmplifyMetadataToStackDescription scope;
                         CallConvertAuthorizationModesToTransformerAuthConfig;
                         CallValidateFunctionSlots] /\ e' = e)
                 \/ evs = [CallAddAmplifyMetadataToStackDescription scope;
                           CallConvertAuthorizationModesToTransformerAuthConfig]
                 \/ evs = [CallAddAmplifyMetadataToStackDescription scope]
                 \/ evs = [])).
  { unfold AmplifyGraphqlApi_constructor, constructorPrologue.
    rewrite Hv. unfold bind at 1 2.
    rewrite Construct_constructor_run. unfold bind at 1.
    rewrite validateNoOtherAmplifyGraphqlApiInStack_spec.
    set (w0 := snd (Construct_constructor _ _ _ w)).
    assert (Ht : trace w0 = trace w) by reflexivity.
    destruct (getStackForScope (nextRef (heap w)) true w0) as [[e0|rs] w0'] eqn:Hrs;
      pose proof (getStackForScope_world _ _ _ _ _ Hrs) as ->.
    - exists e0, [], w0. rewrite app_nil_r. auto 6.
    - destruct (existsb _ (nodes rs)).
      + eexists _, [], w0. rewrite app_nil_r. auto 6.
      + clearbody w0. unfold bind, call, callPure, emit, ret; cbn.
        destruct (addAmplifyMetadataToStackDescription scope (heap w0))
          as [[e1|[]] h1]; cbn.
        * eexists _, _, _. split; [reflexivity|]. cbn. rewrite Ht.
          split; [reflexivity|]. auto.
        * destruct (convertAuthorizationModesToTransformerAuthConfig
                      (authorizationModes props)) as [e2|auth]; cbn.
          -- eexists _, _, _. split; [reflexivity|]. cbn.
             rewrite Ht, <- !app_assoc. split; [reflexivity|]. auto.
          -- eexists _, _, _. split; [reflexivity|]. cbn.
             rewrite Ht, <- !app_assoc. split; [reflexivity|]. auto. }
  destruct H as (e' & evs & w' & Hrun & Htrace & Hevs).
  exists e', evs. rewrite Hrun. auto.
Qed.

(** What the first statements of the constructor have obtained, when they
    return. *)
Lemma constructorPrologue_values (scope : Ref) (id : string)
  (props : AmplifyGraphqlApiProps) (w w1 : World) (p : Prologue) :
  constructorPrologue scope id props w = (inr p, w1) ->
  convertAuthorizationModesToTransformerAuthConfig (authorizationModes props)
  = inr (authConfig p, authSynthParameters p)
  /\ validateFunctionSlots (functionSlots props ?? []) = inr tt
  /\ separateSlots ((functionSlots props ?? [])
                    ++ def_functionSlots (definition props))
     = inr (separatedFunctionSlots p).
Proof.
  unfold constructorPrologue. unfold bind at 1.
  rewrite Construct_constructor_run. unfold bind at 1.
  destruct (validateNoOtherAmplifyGraphqlApiInStack _ _) as [[e|[]] w0];
    [discriminate|].
  unfold bind at 1.
  destruct (call _ _ w0) as [[e|[]] w2]; [discriminate|].
  unfold bind at 1. unfold callPure at 1. unfold bind at 1.
  destruct (emit _ w2) as [[e|[]] w3]; [discriminate|].
  destruct (convertAuthorizationModesToTransformerAuthConfig _) as [e|[a b]];
    [discriminate|].
  unfold bind at 1. unfold callPure at 1. unfold bind at 1.
  destruct (emit _ w3) as [[e|[]] w4]; [discriminate|].
  destruct (validateFunctionSlots _) as [e|[]]; [discriminate|].
  unfold bind at 1. unfold callPure at 1. unfold bind at 1.
  destruct (emit _ w4) as [[e|[]] w5]; [discriminate|].
  destruct (separateSlots _) as [e|separated]; [discriminate|].
  unfold ret. intros H. injection H as <- _. repeat split.
Qed.

(** The auth configuration that [executeTransform] is given. *)
Lemma constructorTransform_auth (id : string) (props : AmplifyGraphqlApiProps)
  (p : Prologue) (name : string) (w w' : World) (r : Result AmplifyGraphqlApi) :
  constructorTransform id props p name w = (r, w') ->
  exists evs,
    trace w' = trace w ++ evs
    /\ forall config, In (CallExecuteTransform config) evs ->
         cfg_authConfig config = authConfig p
         /\ sp_auth (synthParameters config) = authSynthParameters p.
Proof.
  unfold constructorTransform, storeOutput, bind, call, callPure, emit, ret; cbn.
  intros H.
  repeat step_run;
    (eexists; split; [cbn; rewrite <- ?app_assoc; reflexivity|];
     intros config Hin; cbn in Hin;
     repeat (destruct Hin as [Hin|Hin]; [try discriminate Hin|]);
     try contradiction;
     injection Hin as <-; cbn; split; reflexivity).
Qed.

(** X9. What reaches [executeTransform] from the function slots and the
    authorization modes: its user defined slots are what
    [parseUserDefinedSlots] makes of the separation, by [separateSlots],
    of the slots of the properties followed by those of the definition,
    the slots of the properties having passed [validateFunctionSlots]; its
    auth configuration and auth parameters are the two results of
    [convertAuthorizationModesToTransformerAuthConfig] on the
    authorization modes of the properties. *)
Theorem slots_and_auth_reach_executeTransform
  (scope : Ref) (id : string) (props : AmplifyGraphqlApiProps) (w : World) :
  exists evs,
    trace (snd (AmplifyGraphqlApi_constructor scope id props w)) = trace w ++ evs
    /\ forall config, In (CallExecuteTransform config) evs ->
         validateFunctionSlots (functionSlots props ?? []) = inr tt
         /\ (exists separated,
               separateSlots ((functionSlots props ?? [])
                              ++ def_functionSlots (definition props))
               = inr separated
               /\ parseUserDefinedSlots separated = inr (userDefinedSlots config))
         /\ convertAuthorizationModesToTransformerAuthConfig
              (authorizationModes props)
            = inr (cfg_authConfig config, sp_auth (synthParameters config)).
Proof.
  destruct (AmplifyGraphqlApi_constructor scope id props w) as [r w'] eqn:Hrun.
  cbn [snd].
  destruct (constructor_any _ _ _ _ _ _ Hrun)
    as [(evs & Hevs & Hno)|(p & w1 & name & Hp & Ht)].
  - exists evs. split; [exact Hevs|]. intros config Hin. now elim (Hno config).
  - destruct (constructorPrologue_inr _ _ _ _ _ _ Hp) as (_ & _ & Htrace).
    destruct (constructorPrologue_values _ _ _ _ _ _ Hp) as (Hauth & Hvalid & Hsep).
    destruct (constructorTransform_config _ _ _ _ _ _ _ Ht)
      as (evs & Hevs & _ & Hcfg).
    destruct (constructorTransform_auth _ _ _ _ _ _ _ Ht)
      as (evs' & Hevs' & Hcfg').
    assert (evs' = evs) as -> by (rewrite Hevs in Hevs'; now apply app_inv_head in Hevs').
    cbn [trace] in Hevs.
    eexists. split; [rewrite Hevs, Htrace, <- !app_assoc; reflexivity|].
    intros config Hin. cbn [app] in Hin.
    repeat (destruct Hin as [Hin|Hin]; [discriminate Hin|]).
    destruct (Hcfg config Hin) as (_ & _ & _ & _ & _ & _ & _ & Hparse & _).
    destruct (Hcfg' config Hin) as (Ha & Hs).
    split; [exact Hvalid|]. split.
    + exists (separatedFunctionSlots p). split; assumption.
    + now rewrite Ha, Hs.
Qed.

End Runs.

Import GraphqlApiDemo.

Lemma executeTransform_configuration_witness :
  exists evs,
    trace (snd (AmplifyGraphqlApi_constructor (C := demoCollaborators None)
                  1 "api" demoProps (demoWorld [] 2)))
    = [] ++ evs
    /\ exists config,
         In (CallExecuteTransform config) evs
         /\ cfg_scope config = 2
         /\ sp_apiName (synthParameters config) = "api"
         /\ resolverConfig config = None.
Proof.
  destruct (executeTransform_configuration (C := demoCollaborators None)
              1 "api" demoProps (demoWorld [] 2)) as (evs & Hevs & _ & Hcfg).
  exists evs. split; [exact Hevs|].
  cbn in Hevs. subst evs.
  eexists. split; [do 6 right; left; reflexivity|].
  match goal with
  | |- cfg_scope ?c = _ /\ _ =>
      destruct (Hcfg c) as (H1 & H2 & _ & _ & _ & _ & H7);
        [do 6 right; left; reflexivity|]
  end.
  repeat split; assumption.
Defined.

Lemma translationBehavior_overrides_defaults_witness :
  exists evs,
    trace (snd (AmplifyGraphqlApi_constructor (C := demoCollaborators None)
                  1 "api" demoProps (demoWorld [] 2)))
    = [] ++ evs
    /\ exists config,
         In (CallExecuteTransform config) evs
         /\ getKey (transformParameters config) "shouldDeepMergeDirectiveConfigDefaults"
            = None.
Proof.
  destruct (translationBehavior_overrides_defaults (C := demoCollaborators None)
              1 "api" demoProps (demoWorld [] 2)) as (evs & Hevs & Hcfg).
  exists evs. split; [exact Hevs|].
  cbn in Hevs. subst evs.
  eexists. split; [do 6 right; left; reflexivity|].
  rewrite Hcfg by (do 6 right; left; reflexivity). reflexivity.
Defined.

Lemma demoRun_returns :
  AmplifyGraphqlApi_constructor (C := demoCollaborators None)
    1 "api" demoProps (demoWorld [] 2)
  = (inr demoApi, snd demoRun).
Proof.
  apply injective_projections; [vm_compute; reflexivity | reflexivity].
Defined.

Lemma constructor_calls_in_order_witness :
  exists config output,
    trace (snd demoRun)
    = [CallAddAmplifyMetadataToStackDescription 1;
       CallConvertAuthorizationModesToTransformerAuthConfig;
       CallValidateFunctionSlots;
       CallSeparateSlots;
       CallTryGetContext "amplifyEnvironmentName";
       CallParseUserDefinedSlots;
       CallExecuteTransform config; CallNewCodegenAssets;
       CallGetGeneratedResources; CallGetGeneratedFunctionSlots;
       CallAddBackendOutputEntry output].
Proof.
  exact (constructor_calls_in_order (C := demoCollaborators None)
           1 "api" demoProps (demoWorld [] 2) (snd demoRun) demoApi
           demoRun_returns).
Defined.

Lemma stored_output_agrees_with_construct_witness :
  exists earlier output,
    trace (snd demoRun) = earlier ++ [CallAddBackendOutputEntry output]
    /\ version output = "1"
    /\ awsAppsyncApiId (payload output) = "id"
    /\ awsAppsyncApiKey (payload output) = None.
Proof.
  destruct (stored_output_agrees_with_construct (C := demoCollaborators None)
              1 "api" demoProps (demoWorld [] 2) (snd demoRun) demoApi
              demoRun_returns)
    as (earlier & output & Htrace & Hv & Hid & _ & Hkey & _).
  exists earlier, output.
  split; [exact Htrace|]. split; [exact Hv|]. split; [exact Hid | exact Hkey].
Defined.

Lemma slots_and_auth_reach_executeTransform_witness :
  exists evs,
    trace (snd (AmplifyGraphqlApi_constructor (C := demoCollaborators None)
                  1 "api" demoProps (demoWorld [] 2)))
    = [] ++ evs
    /\ exists config,
         In (CallExecuteTransform config) evs
         /\ convertAuthorizationModesToTransformerAuthConfig
              (Collaborators := demoCollaborators None)
              (authorizationModes demoProps)
            = inr (cfg_authConfig config, sp_auth (synthParameters config)).
Proof.
  destruct (slots_and_auth_reach_executeTransform (C := demoCollaborators None)
              1 "api" demoProps (demoWorld [] 2)) as (evs & Hevs & Hcfg).
  exists evs. split; [exact Hevs|].
  cbn in Hevs. subst evs.
  eexists. split; [do 6 right; left; reflexivity|].
  match goal with
  | |- _ = inr (cfg_authConfig ?c, _) =>
      destruct (Hcfg c) as (_ & _ & Hauth); [do 6 right; left; reflexivity|]
  end.
  exact Hauth.
Defined.

Lemma rejected_function_slots_stop_the_constructor_witness :
  exists e' evs,
    fst (AmplifyGraphqlApi_constructor (C := rejectingCollaborators)
           1 "api" demoProps (demoWorld [] 2)) = inl e'
    /\ trace (snd (AmplifyGraphqlApi_constructor (C := rejectingCollaborators)
                     1 "api" demoProps (demoWorld [] 2))) = [] ++ evs
    /\ ((evs = [CallAddAmplifyMetadataToStackDescription 1;
                CallConvertAuthorizationModesToTransformerAuthConfig;
                CallValidateFunctionSlots]
         /\ e' = Error "Invalid function slot")
        \/ evs = [CallAddAmplifyMetadataToStackDescription 1;
                  CallConvertAuthorizationModesToTransformerAuthConfig]
        \/ evs = [CallAddAmplifyMetadataToStackDescription 1]
        \/ evs = []).
Proof.
  exact (rejected_function_slots_stop_the_constructor (C := rejectingCollaborators)
           1 "api" demoProps (demoWorld [] 2) (Error "Invalid function slot")
           eq_refl).
Defined.

End ConstructorFacts.
